(** * The audio recorder of scratch-gui: capture, loudness and silence trimming

    Shallow embedding of [src/lib/audio/audio-recorder.js] (class
    [AudioRecorder]) and of the singleton of
    [src/lib/audio/shared-audio-context.js].

    - JavaScript numbers are IEEE 754 binary64 values: Rocq's primitive
      floats, which evaluate inside the kernel.
    - [calculateRMS] is written once over a small arithmetic interface and
      instantiated twice: at binary64 (what the program runs) and at the real
      numbers (exact arithmetic, in which the closed forms of the
      specification are identities).
    - Typed arrays and arrays are objects in a store, referred to by address,
      so that what [stop] allocates can be told apart from what the recorder
      already holds.
    - The browser is the part of the Web Audio state the recorder acts on:
      the connections of the processing graph, the script processors that
      carry the recorder's [onaudioprocess] handler and the tracks that were
      stopped.  Every call with an effect outside the recorder (a
      notification of the caller, a request to the browser) is appended to a
      log.
    - A method or a callback is a state transformer that may throw. *)

From Stdlib Require Import Floats Reals Lra Lia ZArith String.
From Stdlib Require Uint63.
From stdpp Require Import base option list.

(* Decimal literals such as 0.35 denote the nearest binary64 value, as they
   do in JavaScript. *)
Set Warnings "-inexact-float".

(* ===================================================================== *)
(** * Numbers *)
(* ===================================================================== *)

(** The arithmetic [calculateRMS] uses. *)
Class Arith (num : Type) : Type := {
  num_zero : num;                  (* the literal 0 *)
  num_unity : num;                 (* the literal 0.35 *)
  num_add : num -> num -> num;     (* a + b *)
  num_mul : num -> num -> num;     (* a * b *)
  num_div : num -> num -> num;     (* a / b *)
  num_sqrt : num -> num;           (* Math.sqrt(a) *)
  num_of_nat : nat -> num          (* an array length as a number *)
}.

(** An array length or an index as a binary64 number.  Lengths are below
    2^32, so the conversion is exact. *)
Definition float_of_nat (n : nat) : float :=
  PrimFloat.of_uint63 (Uint63.of_Z (Z.of_nat n)).

(** binary64, the numbers of the program. *)
#[export] Instance float_Arith : Arith float := {|
  num_zero := 0%float;
  num_unity := 0.35%float;
  num_add := PrimFloat.add;
  num_mul := PrimFloat.mul;
  num_div := PrimFloat.div;
  num_sqrt := PrimFloat.sqrt;
  num_of_nat := float_of_nat
|}.

(** Exact arithmetic. *)
#[export] Instance R_Arith : Arith R := {|
  num_zero := 0%R;
  num_unity := (35 / 100)%R;
  num_add := Rplus;
  num_mul := Rmult;
  num_div := Rdiv;
  num_sqrt := R_sqrt.sqrt;
  num_of_nat := INR
|}.

Section LoudnessMeter.
Context {num : Type} `{Arith num}.

(** [Math.pow(v, 2)], taken as the product [v * v]: the value engines
    return for the exponent 2, and exact on the elements of a
    [Float32Array]. *)
Definition Math_pow2 (v : num) : num := num_mul v v.

(** [calculateRMS (samples)], lines 45-54.
<<
    const sum = samples.reduce((acc, v) => acc + Math.pow(v, 2), 0);
    const rms = Math.sqrt(sum / samples.length);
    const unity = 0.35;
    const val = rms / unity;
    return Math.sqrt(val);
>> *)
Definition calculateRMS (samples : list num) : num :=
  let sum := fold_left (fun acc v => num_add acc (Math_pow2 v)) samples num_zero in
  let rms := num_sqrt (num_div sum (num_of_nat (length samples))) in
  let unity := num_unity in
  let val := num_div rms unity in
  num_sqrt val.
End LoudnessMeter.

(** Follows the words of the specification (section 4.2 and 8): the sum
    [Σ sampleᵢ²] as a mathematical sum, and the closed form
    [sqrt (sqrt (Σ sampleᵢ² / n) / 0.35)]. *)
Fixpoint spec_sum_squares (samples : list R) : R :=
  match samples with
  | [] => 0%R
  | v :: rest => (v * v + spec_sum_squares rest)%R
  end.

Definition spec_rms (samples : list R) : R :=
  R_sqrt.sqrt (R_sqrt.sqrt (spec_sum_squares samples / INR (length samples)) / (35 / 100)).

(** ** [Math.max], [Math.min] and the coercion of [null] *)

Definition is_neg_zero (x : float) : bool :=
  PrimFloat.is_zero x && PrimFloat.get_sign x.

Definition is_pos_zero (x : float) : bool :=
  PrimFloat.is_zero x && negb (PrimFloat.get_sign x).

(** One round of the loop of [Math.max] (ECMAScript 21.3.2.24): NaN
    absorbs, [+0] is above [-0]. *)
Definition max_step (highest number : float) : float :=
  if PrimFloat.is_nan highest then highest
  else if PrimFloat.is_nan number then number
  else if is_pos_zero number && is_neg_zero highest then number
  else if PrimFloat.ltb highest number then number
  else highest.

Definition Math_max (values : list float) : float :=
  fold_left max_step values PrimFloat.neg_infinity.

(** One round of the loop of [Math.min]: NaN absorbs, [-0] is below [+0]. *)
Definition min_step (lowest number : float) : float :=
  if PrimFloat.is_nan lowest then lowest
  else if PrimFloat.is_nan number then number
  else if is_neg_zero number && is_pos_zero lowest then number
  else if PrimFloat.ltb number lowest then number
  else lowest.

Definition Math_min (values : list float) : float :=
  fold_left min_step values PrimFloat.infinity.

(** A local that holds [null] or a number; arithmetic coerces [null] to
    [+0]. *)
Definition ToNumber (v : option float) : float :=
  match v with
  | None => 0%float
  | Some x => x
  end.


(* ===================================================================== *)
(** * The store, the browser and the recorder *)
(* ===================================================================== *)

(** Arrays of numbers ([Float32Array] and [Array]) live in a store and are
    referred to by address.  [new] appends, so an address allocated later is
    larger than every address allocated before.  The elements of a
    [Float32Array] are binary64 values that are also binary32 values; the
    recorder only copies them from one [Float32Array] to another, which
    changes no element. *)
Abbreviation addr := nat (only parsing).
Abbreviation Store := (list (list float)) (only parsing).

Abbreviation Node := nat (only parsing).
Abbreviation Track := nat (only parsing).

(** A media stream, as the list of its audio tracks
    ([userMediaStream.getAudioTracks()]). *)
Abbreviation MediaStream := (list nat) (only parsing).

(** The shared [AudioContext] and what hangs off it. *)
Record Browser : Type := mkBrowser {
  contextSampleRate : float;           (* audioContext.sampleRate *)
  destination : Node;                  (* audioContext.destination *)
  nextNode : Node;                     (* the next node to be created *)
  connections : list (Node * Node);    (* source and target of every connection *)
  handlers : list Node;                (* script processors whose onaudioprocess is the recorder's *)
  stoppedTracks : list Track           (* tracks on which stop() took effect *)
}.

(** Calls that leave the recorder. *)
Inductive Effect : Type :=
  | OnStarted
  | OnUpdate (loudness : float)
  | OnError (e : string)
  | GetUserMedia
  | RequestAnimationFrame
  | SetOnaudioprocess (n : Node) (attached : bool)
  | Connect (a b : Node)
  | Disconnect (n : Node)
  | TrackStop (t : Track).

(** The fields of [AudioRecorder] (constructor, lines 4-19; [analyserNode]
    is first assigned in [attachUserMediaStream] and undefined before). *)
Record AudioRecorder : Type := mkAudioRecorder {
  bufferLength : nat;
  userMediaStream : option MediaStream;
  mediaStreamSource : option Node;
  sourceNode : option Node;
  scriptProcessorNode : option Node;
  analyserNode : option Node;
  recordedSamples : nat;
  recording : bool;
  started : bool;
  buffers : list addr;
  disposed : bool
}.

Definition constructor : AudioRecorder := {|
  bufferLength := 1024;
  userMediaStream := None;
  mediaStreamSource := None;
  sourceNode := None;
  scriptProcessorNode := None;
  analyserNode := None;
  recordedSamples := 0;
  recording := false;
  started := false;
  buffers := [];
  disposed := false
|}.

Record World : Type := mkWorld {
  recorder : AudioRecorder;
  store : Store;
  browser : Browser;
  log : list Effect
}.

(** What [stop] returns. *)
Record TrimResult : Type := mkTrimResult {
  levels : addr;
  samples : addr;
  sampleRate : float;
  trimStart : float;
  trimEnd : float
}.

(** ** Methods and callbacks: state transformers that may throw *)

Inductive exn : Type := TypeError | RangeError.

Inductive outcome (A : Type) : Type :=
  | Ret (a : A)
  | Throw (e : exn).
Arguments Ret {A} a.
Arguments Throw {A} e.

Definition M (A : Type) : Type := World -> World * outcome A.

Definition ret {A : Type} (a : A) : M A := fun w => (w, Ret a).

(** Sequencing: what follows a statement that throws is not run. *)
Definition bind {A B : Type} (m : M A) (f : A -> M B) : M B :=
  fun w =>
    match m w with
    | (w', Ret a) => f a w'
    | (w', Throw e) => (w', Throw e)
    end.

Declare Scope method_scope.
Delimit Scope method_scope with method.
Notation "x ← y ; z" := (bind y (fun x => z)) (only parsing) : method_scope.
Notation "x ;; z" := (bind x (fun _ => z)) (only parsing) : method_scope.
Open Scope method_scope.

Definition throw {A : Type} (e : exn) : M A := fun w => (w, Throw e).

Definition this {A : Type} (field : AudioRecorder -> A) : M A :=
  fun w => (w, Ret (field (recorder w))).

Definition assign (f : AudioRecorder -> AudioRecorder) : M unit :=
  fun w => (mkWorld (f (recorder w)) (store w) (browser w) (log w), Ret tt).

Definition emit (e : Effect) : M unit :=
  fun w => (mkWorld (recorder w) (store w) (browser w) (log w ++ [e]), Ret tt).

Definition set_browser (f : Browser -> Browser) : M unit :=
  fun w => (mkWorld (recorder w) (store w) (f (browser w)) (log w), Ret tt).

(** Reading a field that holds an object: [null] and [undefined] have no
    properties. *)
Definition deref {A : Type} (field : AudioRecorder -> option A) : M A :=
  fun w =>
    match field (recorder w) with
    | Some x => (w, Ret x)
    | None => (w, Throw TypeError)
    end.

(** *** Assignments to the fields *)

Definition set_userMediaStream (v : option MediaStream) (r : AudioRecorder) : AudioRecorder :=
  mkAudioRecorder (bufferLength r) v (mediaStreamSource r) (sourceNode r)
    (scriptProcessorNode r) (analyserNode r) (recordedSamples r) (recording r)
    (started r) (buffers r) (disposed r).

Definition set_mediaStreamSource (v : option Node) (r : AudioRecorder) : AudioRecorder :=
  mkAudioRecorder (bufferLength r) (userMediaStream r) v (sourceNode r)
    (scriptProcessorNode r) (analyserNode r) (recordedSamples r) (recording r)
    (started r) (buffers r) (disposed r).

Definition set_sourceNode (v : option Node) (r : AudioRecorder) : AudioRecorder :=
  mkAudioRecorder (bufferLength r) (userMediaStream r) (mediaStreamSource r) v
    (scriptProcessorNode r) (analyserNode r) (recordedSamples r) (recording r)
    (started r) (buffers r) (disposed r).

Definition set_scriptProcessorNode (v : option Node) (r : AudioRecorder) : AudioRecorder :=
  mkAudioRecorder (bufferLength r) (userMediaStream r) (mediaStreamSource r)
    (sourceNode r) v (analyserNode r) (recordedSamples r) (recording r)
    (started r) (buffers r) (disposed r).

Definition set_analyserNode (v : option Node) (r : AudioRecorder) : AudioRecorder :=
  mkAudioRecorder (bufferLength r) (userMediaStream r) (mediaStreamSource r)
    (sourceNode r) (scriptProcessorNode r) v (recordedSamples r) (recording r)
    (started r) (buffers r) (disposed r).

Definition set_recording (v : bool) (r : AudioRecorder) : AudioRecorder :=
  mkAudioRecorder (bufferLength r) (userMediaStream r) (mediaStreamSource r)
    (sourceNode r) (scriptProcessorNode r) (analyserNode r) (recordedSamples r) v
    (started r) (buffers r) (disposed r).

Definition set_started (v : bool) (r : AudioRecorder) : AudioRecorder :=
  mkAudioRecorder (bufferLength r) (userMediaStream r) (mediaStreamSource r)
    (sourceNode r) (scriptProcessorNode r) (analyserNode r) (recordedSamples r)
    (recording r) v (buffers r) (disposed r).

Definition push_buffers (a : addr) (r : AudioRecorder) : AudioRecorder :=
  mkAudioRecorder (bufferLength r) (userMediaStream r) (mediaStreamSource r)
    (sourceNode r) (scriptProcessorNode r) (analyserNode r) (recordedSamples r)
    (recording r) (started r) (buffers r ++ [a]) (disposed r).

Definition set_disposed (v : bool) (r : AudioRecorder) : AudioRecorder :=
  mkAudioRecorder (bufferLength r) (userMediaStream r) (mediaStreamSource r)
    (sourceNode r) (scriptProcessorNode r) (analyserNode r) (recordedSamples r)
    (recording r) (started r) (buffers r) v.

(** *** The store *)

(** [new Float32Array(source)], [new Float32Array(n)] and the array built by
    [map]: a new object holding [v]. *)
Definition new_array (v : list float) : M addr :=
  fun w => (mkWorld (recorder w) (store w ++ [v]) (browser w) (log w),
            Ret (length (store w))).

Definition read (a : addr) : M (list float) :=
  fun w =>
    match store w !! a with
    | Some v => (w, Ret v)
    | None => (w, Throw TypeError)
    end.

(** [target.set(source, offset)] on typed arrays: a [RangeError] when the
    source does not fit, otherwise the elements from [offset] on are
    overwritten. *)
Definition typed_array_set (target : addr) (source : list float) (offset : nat) : M unit :=
  fun w =>
    match store w !! target with
    | None => (w, Throw TypeError)
    | Some t =>
        if (offset + length source <=? length t)%nat then
          (mkWorld (recorder w)
             (<[target := take offset t ++ source ++ drop (offset + length source) t]> (store w))
             (browser w) (log w), Ret tt)
        else (w, Throw RangeError)
    end.

(** *** The browser *)

(** [createMediaStreamSource], [createGain], [createScriptProcessor] and
    [createAnalyser]: a new node, not connected. *)
Definition createNode : M Node :=
  fun w =>
    let b := browser w in
    (mkWorld (recorder w) (store w)
       (mkBrowser (contextSampleRate b) (destination b) (S (nextNode b))
          (connections b) (handlers b) (stoppedTracks b))
       (log w), Ret (nextNode b)).

(** [audioContext.destination] and [audioContext.sampleRate]. *)
Definition context_destination : M Node :=
  fun w => (w, Ret (destination (browser w))).

Definition context_sampleRate : M float :=
  fun w => (w, Ret (contextSampleRate (browser w))).

(** [a.connect(b)]. *)
Definition connect (a b : Node) : M unit :=
  emit (Connect a b);;
  set_browser (fun br =>
    mkBrowser (contextSampleRate br) (destination br) (nextNode br)
      ((a, b) :: connections br) (handlers br) (stoppedTracks br)).

(** [n.disconnect()]: every outgoing connection of [n] is removed; a node
    without connections is left as it is. *)
Definition disconnect (n : Node) : M unit :=
  emit (Disconnect n);;
  set_browser (fun br =>
    mkBrowser (contextSampleRate br) (destination br) (nextNode br)
      (filter (fun c => c.1 <> n) (connections br)) (handlers br) (stoppedTracks br)).

(** [n.onaudioprocess = handler] and [n.onaudioprocess = null]. *)
Definition set_onaudioprocess (n : Node) (attached : bool) : M unit :=
  emit (SetOnaudioprocess n attached);;
  set_browser (fun br =>
    mkBrowser (contextSampleRate br) (destination br) (nextNode br) (connections br)
      (if attached then n :: handlers br else filter (fun m => m <> n) (handlers br))
      (stoppedTracks br)).

(** [track.stop()]: ends the track; nothing happens to a track that has
    ended. *)
Definition track_stop (t : Track) : M unit :=
  emit (TrackStop t);;
  set_browser (fun br =>
    mkBrowser (contextSampleRate br) (destination br) (nextNode br) (connections br)
      (handlers br)
      (if decide (t ∈ stoppedTracks br) then stoppedTracks br else t :: stoppedTracks br)).

(* ===================================================================== *)
(** * The methods of [AudioRecorder] *)
(* ===================================================================== *)

(** [startRecording ()], lines 41-43. *)
Definition startRecording : M unit :=
  assign (set_recording true).

(** The handler installed on the script processor, lines 62-66.
<<
      if (this.recording && !this.disposed) {
          this.buffers.push(new Float32Array(processEvent.inputBuffer.getChannelData(0)));
      }
>>
    [channelData] is the content of the first channel of the event's
    buffer; the chunk that is kept is a copy of it. *)
Definition onaudioprocess (channelData : list float) : M unit :=
  rec ← this recording;
  d ← this disposed;
  if rec && negb d then
    chunk ← new_array channelData;
    assign (push_buffers chunk)
  else ret tt.

(** The animation-frame callback, lines 75-80.
<<
      if (this.disposed) return;
      requestAnimationFrame(update);
      this.analyserNode.getFloatTimeDomainData(dataArray);
      onUpdate(this.calculateRMS(dataArray));
>>
    [timeDomainData] is what the analyser writes into [dataArray]. *)
Definition update (timeDomainData : list float) : M unit :=
  d ← this disposed;
  if d then ret tt
  else
    emit RequestAnimationFrame;;
    emit (OnUpdate (calculateRMS timeDomainData)).

(** [attachUserMediaStream (userMediaStream, onUpdate)], lines 56-89. *)
Definition attachUserMediaStream (stream : MediaStream) : M unit :=
  assign (set_userMediaStream (Some stream));;
  src ← createNode;
  assign (set_mediaStreamSource (Some src));;
  gain ← createNode;
  assign (set_sourceNode (Some gain));;
  processor ← createNode;
  assign (set_scriptProcessorNode (Some processor));;
  set_onaudioprocess processor true;;
  analyser ← createNode;
  assign (set_analyserNode (Some analyser));;
  emit RequestAnimationFrame;;
  a ← deref mediaStreamSource;
  b ← deref sourceNode;
  connect a b;;
  c ← deref analyserNode;
  connect b c;;
  p ← deref scriptProcessorNode;
  connect c p;;
  out ← context_destination;
  connect p out.

(** [startListening (onStarted, onUpdate, onError)], lines 21-39: the call
    itself.  [navigator.getUserMedia] either takes the request, and one of
    the two callbacks below fires later, or throws [thrown] at once, which
    the [catch] clause reports. *)
Definition startListening (thrown : option string) : M unit :=
  match thrown with
  | None => emit GetUserMedia
  | Some e =>
      d ← this disposed;
      if negb d then emit (OnError e) else ret tt
  end.

(** The success callback of [getUserMedia], lines 23-29. *)
Definition onStream (stream : MediaStream) : M unit :=
  d ← this disposed;
  if negb d then
    assign (set_started true);;
    emit OnStarted;;
    attachUserMediaStream stream
  else ret tt.

(** The failure callback of [getUserMedia], lines 29-33. *)
Definition onFailure (e : string) : M unit :=
  d ← this disposed;
  if negb d then emit (OnError e) else ret tt.

(** ** [stop] *)

(** [this.buffers.map(buffer => this.calculateRMS(buffer))], line 92. *)
Fixpoint map_calculateRMS (bufs : list addr) : M (list float) :=
  match bufs with
  | [] => ret []
  | buffer :: rest =>
      chunk ← read buffer;
      level ← ret (calculateRMS chunk);
      others ← map_calculateRMS rest;
      ret (level :: others)
  end.

(** The scan of lines 96-103; [i] counts the chunks already seen.
<<
      for (let i = 0; i < chunkLevels.length; i++) {
          if (chunkLevels[i] > threshold) {
              if (firstChunkAboveThreshold === null) firstChunkAboveThreshold = i + 1;
              lastChunkAboveThreshold = i + 1;
          }
      }
>> *)
Fixpoint scan_loop (chunkLevels : list float) (threshold : float) (i : nat)
    (firstChunkAboveThreshold lastChunkAboveThreshold : option float)
    : option float * option float :=
  match chunkLevels with
  | [] => (firstChunkAboveThreshold, lastChunkAboveThreshold)
  | level :: rest =>
      if PrimFloat.ltb threshold level then
        scan_loop rest threshold (S i)
          (match firstChunkAboveThreshold with
           | None => Some (float_of_nat (i + 1))
           | Some _ => firstChunkAboveThreshold
           end)
          (Some (float_of_nat (i + 1)))
      else
        scan_loop rest threshold (S i) firstChunkAboveThreshold lastChunkAboveThreshold
  end.

(** The copy of lines 110-115.
<<
      for (let i = 0; i < this.buffers.length; i++) {
          const bufferChunk = this.buffers[i];
          buffer.set(bufferChunk, offset);
          offset += bufferChunk.length;
      }
>> *)
Fixpoint copy_loop (bufs : list addr) (buffer : addr) (offset : nat) : M unit :=
  match bufs with
  | [] => ret tt
  | b :: rest =>
      bufferChunk ← read b;
      typed_array_set buffer bufferChunk offset;;
      copy_loop rest buffer (offset + length bufferChunk)
  end.

(** Lines 105-106, from the two indices of the scan and the number of
    chunks. *)
Definition trim_start (first : option float) (total : nat) : float :=
  (Math_max [2; ToNumber first - 2] / float_of_nat total)%float.

Definition trim_end (last : option float) (total : nat) : float :=
  (Math_min [float_of_nat total - 2; ToNumber last + 2] / float_of_nat total)%float.

(** [stop ()], lines 91-124. *)
Definition stop : M TrimResult :=
  bufs ← this buffers;
  levelValues ← map_calculateRMS bufs;
  chunkLevels ← new_array levelValues;
  let maxRMS := Math_max levelValues in
  let threshold := (maxRMS / 8)%float in
  let found := scan_loop levelValues threshold 0 None None in
  let firstChunkAboveThreshold := found.1 in
  let lastChunkAboveThreshold := found.2 in
  let trimStart := trim_start firstChunkAboveThreshold (length bufs) in
  let trimEnd := trim_end lastChunkAboveThreshold (length bufs) in
  chunkLength ← this bufferLength;
  buffer ← new_array (replicate (length bufs * chunkLength) 0%float);
  copy_loop bufs buffer 0;;
  rate ← context_sampleRate;
  ret {| levels := chunkLevels;
          samples := buffer;
          sampleRate := rate;
          trimStart := trimStart;
          trimEnd := trimEnd |}.

(** ** [dispose] *)

(** [dispose ()], lines 126-136. *)
Definition dispose : M unit :=
  s ← this started;
  (if s then
     processor ← deref scriptProcessorNode;
     set_onaudioprocess processor false;;
     disconnect processor;;
     analyser ← deref analyserNode;
     disconnect analyser;;
     gain ← deref sourceNode;
     disconnect gain;;
     src ← deref mediaStreamSource;
     disconnect src;;
     stream ← deref userMediaStream;
     match stream with
     | [] => throw TypeError
     | track :: _ => track_stop track
     end
   else ret tt);;
  assign (set_disposed true).

(* ===================================================================== *)
(** * Sessions: what can happen to a recorder, in any order *)
(* ===================================================================== *)

Inductive Event : Type :=
  | CallStartListening (thrown : option string)
  | StreamAcquired (stream : MediaStream)
  | AcquisitionFailed (e : string)
  | CallStartRecording
  | AudioProcess (channelData : list float)
  | AnimationFrame (timeDomainData : list float)
  | CallStop
  | CallDispose.

(** The state after one event.  An exception ends the method or callback
    that raised it and leaves the state as it was when it was raised. *)
Definition step (w : World) (ev : Event) : World :=
  match ev with
  | CallStartListening thrown => (startListening thrown w).1
  | StreamAcquired stream => (onStream stream w).1
  | AcquisitionFailed e => (onFailure e w).1
  | CallStartRecording => (startRecording w).1
  | AudioProcess channelData => (onaudioprocess channelData w).1
  | AnimationFrame data => (update data w).1
  | CallStop => (stop w).1
  | CallDispose => (dispose w).1
  end.

Definition run (w : World) (evs : list Event) : World :=
  fold_left step evs w.

(** A page in which the recorder was just constructed. *)
Definition new_browser (rate : float) : Browser :=
  mkBrowser rate 0 1 [] [] [].

Definition new_world (rate : float) : World :=
  mkWorld constructor [] (new_browser rate) [].

(** The chunks the recorder holds. *)
Definition chunks_of (w : World) : option (list (list float)) :=
  mapM (fun a => store w !! a) (buffers (recorder w)).

(* ===================================================================== *)
(** * Vocabulary of the statements *)
(* ===================================================================== *)

(** The levels [stop] works with, and the two indices it finds. *)
Definition levels_of (cs : list (list float)) : list float :=
  map calculateRMS cs.

Definition threshold_of (cs : list (list float)) : float :=
  (Math_max (levels_of cs) / 8)%float.

Definition found_of (cs : list (list float)) : option float * option float :=
  scan_loop (levels_of cs) (threshold_of cs) 0 None None.

(** [level > threshold], as line 99 tests it. *)
Definition above (threshold level : float) : bool :=
  PrimFloat.ltb threshold level.

(** Position (from 0) of the first and of the last element that satisfies
    [p]. *)
Fixpoint first_index (p : float -> bool) (l : list float) : option nat :=
  match l with
  | [] => None
  | x :: rest => if p x then Some 0 else S <$> first_index p rest
  end.

Fixpoint last_index (p : float -> bool) (l : list float) : option nat :=
  match l with
  | [] => None
  | x :: rest =>
      match last_index p rest with
      | Some j => Some (S j)
      | None => if p x then Some 0 else None
      end
  end.

(** [k] is the 1-based index of the first level above the threshold. *)
Definition is_first_above (threshold : float) (lv : list float) (k : nat) : Prop :=
  1 <= k /\
  (exists level, lv !! (k - 1) = Some level /\ above threshold level = true) /\
  (forall j level, j < k - 1 -> lv !! j = Some level -> above threshold level = false).

(** [k] is the 1-based index of the last level above the threshold. *)
Definition is_last_above (threshold : float) (lv : list float) (k : nat) : Prop :=
  1 <= k /\
  (exists level, lv !! (k - 1) = Some level /\ above threshold level = true) /\
  (forall j level, k - 1 < j -> lv !! j = Some level -> above threshold level = false).


(** [w'] differs from [w] at most by objects allocated at addresses from
    [n] on: the recorder, the browser, the log and every object below [n]
    are the same. *)
Definition preserves (n : nat) (w w' : World) : Prop :=
  recorder w' = recorder w /\
  browser w' = browser w /\
  log w' = log w /\
  length (store w) <= length (store w') /\
  (forall a, a < n -> store w' !! a = store w !! a).

(** Splitting a flat buffer back into [n] consecutive blocks of length
    [len]. *)
Fixpoint blocks (len n : nat) (flat : list float) : list (list float) :=
  match n with
  | 0 => []
  | S n' => take len flat :: blocks len n' (drop len flat)
  end.

(** ** Sessions used as examples *)

Definition silent_chunk : list float := [0; 0; 0; 0]%float.
Definition loud_chunk : list float := [1; 1; 1; 1]%float.

(** A session that listens and records, fed with [chunks]. *)
Definition recorded (chunks : list (list float)) : World :=
  run (new_world 44100%float)
    ([CallStartListening None; StreamAcquired [0]; CallStartRecording]
       ++ map AudioProcess chunks).

(** The scenario of section 8 of the specification: 10 chunks of length 4,
    chunks 4 to 6 at amplitude 1, the others silent. *)
Definition scenario_chunks : list (list float) :=
  replicate 3 silent_chunk ++ replicate 3 loud_chunk ++ replicate 4 silent_chunk.

Definition scenario_world : World := recorded scenario_chunks.

(** A capture of one loud chunk, and a capture of three silent chunks. *)
Definition short_world : World := recorded [loud_chunk].
Definition silent_world : World := recorded (replicate 3 silent_chunk).

(** Two chunks of the length the recorder asks the device for. *)
Definition full_chunks : list (list float) :=
  [replicate 1024 1%float; replicate 1024 0%float].

Definition full_world : World := recorded full_chunks.

(** ** Kinds of effects *)

(** What reaches the caller ([onStarted], [onUpdate], [onError]) and what
    keeps the loudness loop going ([requestAnimationFrame (update)]). *)
Definition is_feedback (e : Effect) : bool :=
  match e with
  | OnStarted | OnUpdate _ | OnError _ | RequestAnimationFrame => true
  | _ => false
  end.

(** The calls of the teardown of [dispose]. *)
Definition is_teardown (e : Effect) : bool :=
  match e with
  | SetOnaudioprocess _ false | Disconnect _ | TrackStop _ => true
  | _ => false
  end.

(** A session that listens, is disposed of once, and the same session
    before any stream was acquired. *)
Definition listening_world : World :=
  run (new_world 44100%float) [CallStartListening None; StreamAcquired [0]].

Definition acquiring_world : World :=
  run (new_world 44100%float) [CallStartListening None].
(* ===================================================================== *)
(** * Vocabulary of the session properties *)
(* ===================================================================== *)


(** The recorder after [attachUserMediaStream] has run on [stream] in a
    browser whose next node is [n]. *)
Definition attached_recorder (stream : list nat) (n : nat) (r : AudioRecorder)
    : AudioRecorder :=
  set_analyserNode (Some (S (S (S n))))
    (set_scriptProcessorNode (Some (S (S n)))
       (set_sourceNode (Some (S n))
          (set_mediaStreamSource (Some n)
             (set_userMediaStream (Some stream) r)))).

(** The four connections [attachUserMediaStream] makes, latest first:
    source to gain, gain to analyser, analyser to script processor, script
    processor to [out]. *)
Definition attached_connections (n out : nat) : list (nat * nat) :=
  [(S (S n), out); (S (S (S n)), S (S n)); (S n, S (S (S n))); (n, S n)].

(** The fields [dispose] dereferences are set, and the stream has an audio
    track. *)
Definition attached (r : AudioRecorder) : Prop :=
  exists src gain processor analyser track tracks,
    mediaStreamSource r = Some src /\
    sourceNode r = Some gain /\
    scriptProcessorNode r = Some processor /\
    analyserNode r = Some analyser /\
    userMediaStream r = Some (track :: tracks).


(** No connection and no handler of the browser mentions a node that is
    yet to be created. *)
Definition fresh_nodes (b : Browser) : Prop :=
  Forall (fun c => c.1 < nextNode b) (connections b) /\
  Forall (fun n => n < nextNode b) (handlers b).

(* ===================================================================== *)
(** * Sequencing *)
(* ===================================================================== *)

(** Closed statements about concrete sessions are settled by evaluation. *)
Ltac by_evaluation := repeat apply conj; vm_compute; reflexivity.

(** Every chunk of a concrete session is within the length evaluated for
    [bufferLength]. *)
Ltac chunks_fit :=
  vm_compute; repeat (constructor; [cbn [length]; lia|]); constructor.

Lemma bind_ret {A B : Type} (m : M A) (f : A -> M B) (w w' : World) (a : A) :
  m w = (w', Ret a) -> bind m f w = f a w'.
Proof. intros E. unfold bind. now rewrite E. Qed.

Lemma world_eta (w : World) :
  mkWorld (recorder w) (store w) (browser w) (log w) = w.
Proof. now destruct w. Qed.

(* ===================================================================== *)
(** * What [stop] computes *)
(* ===================================================================== *)

Lemma chunks_of_lookup (st : Store) (bufs : list addr) (cs : list (list float)) :
  mapM (fun a => st !! a) bufs = Some cs ->
  Forall2 (fun a c => st !! a = Some c) bufs cs.
Proof. intros E. now apply mapM_Some in E. Qed.

Lemma map_calculateRMS_spec (bufs : list addr) (cs : list (list float)) (w : World) :
  Forall2 (fun a c => store w !! a = Some c) bufs cs ->
  map_calculateRMS bufs w = (w, Ret (map calculateRMS cs)).
Proof.
  induction 1 as [|a c bufs cs Ha _ IH]; [reflexivity|].
  cbn [map_calculateRMS map].
  rewrite (bind_ret _ _ w w c) by (unfold read; now rewrite Ha).
  rewrite (bind_ret _ _ w w (calculateRMS c)) by reflexivity.
  now rewrite (bind_ret _ _ w w (map calculateRMS cs)) by exact IH.
Qed.

Lemma lookup_insert_other (st : Store) (buffer : addr) (v : list float)
    (bufs : list addr) (cs : list (list float)) :
  Forall2 (fun a c => st !! a = Some c) bufs cs ->
  Forall (fun a => a <> buffer) bufs ->
  Forall2 (fun a c => <[buffer := v]> st !! a = Some c) bufs cs.
Proof.
  induction 1 as [|a c bufs cs Ha _ IH]; intros Hne; [constructor|].
  apply Forall_cons in Hne as [Hne1 Hne].
  constructor; [|now apply IH].
  rewrite list_lookup_insert_ne; [exact Ha|congruence].
Qed.

(** Copying chunks that fit overwrites the target from [offset] on with
    their concatenation and touches nothing else. *)
Lemma copy_loop_spec (buffer : addr) (bufs : list addr) :
  forall (cs : list (list float)) (offset : nat) (w : World) (t : list float),
    Forall2 (fun a c => store w !! a = Some c) bufs cs ->
    Forall (fun a => a <> buffer) bufs ->
    store w !! buffer = Some t ->
    offset + length (concat cs) <= length t ->
    copy_loop bufs buffer offset w =
      (mkWorld (recorder w)
         (<[buffer := take offset t ++ concat cs ++ drop (offset + length (concat cs)) t]> (store w))
         (browser w) (log w), Ret tt).
Proof.
  induction bufs as [|b bufs IH]; intros cs offset w t Hcs Hne Ht Hfit.
  - apply Forall2_nil_inv_l in Hcs as ->. cbn [copy_loop concat length app].
    rewrite Nat.add_0_r, take_drop. rewrite list_insert_id by exact Ht.
    now rewrite world_eta.
  - apply Forall2_cons_inv_l in Hcs as (c & cs' & Hb & Hcs & ->).
    apply Forall_cons in Hne as [Hb_ne Hne].
    cbn [concat] in Hfit. rewrite length_app in Hfit.
    cbn [copy_loop].
    rewrite (bind_ret _ _ w w c) by (unfold read; now rewrite Hb).
    set (t1 := take offset t ++ c ++ drop (offset + length c) t).
    assert (Hlen1 : length t1 = length t).
    { subst t1. rewrite !length_app, length_take, length_drop. lia. }
    rewrite (bind_ret _ _ w
               (mkWorld (recorder w) (<[buffer := t1]> (store w)) (browser w) (log w)) tt).
    2:{ unfold typed_array_set. rewrite Ht.
        destruct (Nat.leb_spec (offset + length c) (length t)); [reflexivity|lia]. }
    rewrite (IH cs' (offset + length c) _ t1); cbn [recorder store browser log].
    + f_equal. f_equal. rewrite list_insert_insert_eq. f_equal.
      cbn [concat]. rewrite length_app.
      subst t1.
      rewrite take_app_ge by (rewrite length_take; lia).
      rewrite length_take, Nat.min_l by lia.
      replace (offset + length c - offset) with (length c) by lia.
      rewrite take_app_length.
      rewrite drop_app_ge by (rewrite length_take; lia).
      rewrite length_take, Nat.min_l by lia.
      rewrite drop_app_ge by lia.
      rewrite drop_drop.
      rewrite <- !app_assoc. do 4 f_equal. lia.
    + now apply lookup_insert_other.
    + exact Hne.
    + apply list_lookup_insert_eq. now apply lookup_lt_Some in Ht.
    + lia.
Qed.

(** The chunks the recorder holds are objects that exist. *)
Lemma chunks_of_valid (w : World) (cs : list (list float)) :
  chunks_of w = Some cs ->
  Forall2 (fun a c => store w !! a = Some c) (buffers (recorder w)) cs.
Proof. apply chunks_of_lookup. Qed.

Lemma concat_length_le (cs : list (list float)) (n : nat) :
  Forall (fun c => length c <= n) cs -> length (concat cs) <= length cs * n.
Proof.
  induction 1 as [|c cs Hc _ IH]; cbn [concat length]; [lia|].
  rewrite length_app. lia.
Qed.

(** When no chunk is longer than [bufferLength], [stop] returns: it
    allocates the array of levels and the sample buffer, and changes nothing
    else. *)
Lemma stop_returns (w : World) (cs : list (list float)) :
  chunks_of w = Some cs ->
  Forall (fun c => length c <= bufferLength (recorder w)) cs ->
  stop w =
    (mkWorld (recorder w)
       (store w ++
          [levels_of cs;
           concat cs ++
             replicate (length cs * bufferLength (recorder w) - length (concat cs)) 0%float])
       (browser w) (log w),
     Ret {| levels := length (store w);
            samples := S (length (store w));
            sampleRate := contextSampleRate (browser w);
            trimStart := trim_start (found_of cs).1 (length cs);
            trimEnd := trim_end (found_of cs).2 (length cs) |}).
Proof.
  intros Hcs Hfit. apply chunks_of_valid in Hcs.
  pose proof (Forall2_length _ _ _ Hcs) as Hlen.
  pose proof (concat_length_le _ _ Hfit) as Hsum.
  unfold stop.
  rewrite (bind_ret _ _ w w (buffers (recorder w))) by reflexivity.
  rewrite (bind_ret _ _ w w (levels_of cs)) by now apply map_calculateRMS_spec.
  set (w1 := mkWorld (recorder w) (store w ++ [levels_of cs]) (browser w) (log w)).
  rewrite (bind_ret _ _ w w1 (length (store w))) by reflexivity.
  rewrite (bind_ret _ _ w1 w1 (bufferLength (recorder w))) by reflexivity.
  set (zeros := replicate (length (buffers (recorder w)) * bufferLength (recorder w)) 0%float).
  set (w2 := mkWorld (recorder w) (store w1 ++ [zeros]) (browser w) (log w)).
  rewrite (bind_ret _ _ w1 w2 (S (length (store w)))).
  2:{ unfold new_array. subst w2 w1. cbn [recorder store browser log].
      rewrite length_app. cbn [length]. do 2 f_equal. lia. }
  assert (Hbuf : store w2 !! S (length (store w)) = Some zeros).
  { subst w2 w1. cbn [store]. rewrite lookup_app_r; rewrite length_app; cbn [length]; [|lia].
    now replace (S (length (store w)) - (length (store w) + 1)) with 0 by lia. }
  assert (Hold : Forall2 (fun a c => store w2 !! a = Some c) (buffers (recorder w)) cs).
  { eapply Forall2_impl; [exact Hcs|]. intros a c Ha. subst w2 w1. cbn [store].
    rewrite <- app_assoc. rewrite lookup_app_l; [exact Ha|]. now apply lookup_lt_Some in Ha. }
  assert (Hne : Forall (fun a => a <> S (length (store w))) (buffers (recorder w))).
  { apply Forall_forall. intros a Ha.
    apply list_elem_of_lookup in Ha as [i Hi].
    destruct (Forall2_lookup_l _ _ _ _ _ Hcs Hi) as (c & _ & Hc).
    apply lookup_lt_Some in Hc. lia. }
  rewrite (bind_ret _ _ w2 _ tt
             (copy_loop_spec _ _ cs 0 w2 zeros Hold Hne Hbuf
                ltac:(subst zeros; rewrite length_replicate; cbn; lia))).
  cbn [recorder store browser log w2 w1].
  match goal with |- bind _ _ ?w3 = _ =>
    rewrite (bind_ret _ _ w3 w3 (contextSampleRate (browser w))) by reflexivity end.
  unfold ret. rewrite Hlen. f_equal. f_equal.
  rewrite <- app_assoc. cbn [app].
  rewrite insert_app_r_alt by lia.
  replace (S (length (store w)) - length (store w)) with 1 by lia.
  cbn [take app Nat.add]. f_equal. unfold insert. cbn [list_insert]. do 2 f_equal.
  subst zeros. rewrite drop_replicate. f_equal. now rewrite Hlen.
Qed.

(* ===================================================================== *)
(** * The scan for the first and the last loud chunk *)
(* ===================================================================== *)

Lemma first_index_Some (p : float -> bool) (l : list float) (j : nat) :
  first_index p l = Some j ->
  (exists x, l !! j = Some x /\ p x = true) /\
  (forall i y, i < j -> l !! i = Some y -> p y = false).
Proof.
  revert j. induction l as [|x l IH]; intros j; cbn [first_index]; [discriminate|].
  destruct (p x) eqn:Hx.
  - intros [= <-]. split; [now exists x|]. intros i y Hi. lia.
  - destruct (first_index p l) as [j'|]; [|discriminate].
    intros [= <-]. destruct (IH j' eq_refl) as [Hex Hbefore].
    split; [exact Hex|].
    intros [|i] y Hi; cbn; [now intros [= <-]|].
    apply Hbefore. lia.
Qed.

Lemma last_index_None (p : float -> bool) (l : list float) :
  last_index p l = None -> forall i y, l !! i = Some y -> p y = false.
Proof.
  induction l as [|x l IH]; cbn [last_index]; intros Hl i y Hy; [now destruct i|].
  destruct (last_index p l); [discriminate|].
  destruct (p x) eqn:Hx; [discriminate|].
  destruct i as [|i]; cbn in Hy; [congruence|]. now apply (IH eq_refl i).
Qed.

Lemma last_index_Some (p : float -> bool) (l : list float) (j : nat) :
  last_index p l = Some j ->
  (exists x, l !! j = Some x /\ p x = true) /\
  (forall i y, j < i -> l !! i = Some y -> p y = false).
Proof.
  revert j. induction l as [|x l IH]; intros j; cbn [last_index]; [discriminate|].
  destruct (last_index p l) as [j'|] eqn:Hl.
  - intros [= <-]. destruct (IH j' eq_refl) as [Hex Hafter].
    split; [exact Hex|].
    intros [|i] y Hi; [lia|]. cbn. apply Hafter. lia.
  - destruct (p x) eqn:Hx; [|discriminate].
    intros [= <-]. split; [now exists x|].
    intros [|i] y Hi; [lia|]. cbn. now apply last_index_None.
Qed.

Lemma first_index_is_Some (p : float -> bool) (l : list float) (x : float) :
  x ∈ l -> p x = true -> is_Some (first_index p l).
Proof.
  induction 1 as [x l|x z l _ IH]; intros Hx; cbn [first_index].
  - rewrite Hx. now eexists.
  - destruct (p z); [now eexists|]. destruct (IH Hx) as [j ->]. now eexists.
Qed.

Lemma last_index_is_Some (p : float -> bool) (l : list float) (x : float) :
  x ∈ l -> p x = true -> is_Some (last_index p l).
Proof.
  induction 1 as [x l|x z l _ IH]; intros Hx; cbn [last_index].
  - destruct (last_index p l); [now eexists|]. rewrite Hx. now eexists.
  - destruct (IH Hx) as [j ->]. now eexists.
Qed.

(** The loop of [stop] computes these two positions, counted from 1, and
    keeps a first index that is already set. *)
Lemma scan_loop_indices (threshold : float) (lv : list float) :
  forall (i : nat) (first last : option float),
    scan_loop lv threshold i first last =
      (match first with
       | Some _ => first
       | None => (fun j => float_of_nat (i + j + 1)) <$> first_index (above threshold) lv
       end,
       match last_index (above threshold) lv with
       | Some j => Some (float_of_nat (i + j + 1))
       | None => last
       end).
Proof.
  induction lv as [|x lv IH]; intros i first last; cbn [scan_loop first_index last_index].
  - now destruct first.
  - assert (Hshift : forall j, float_of_nat (S i + j + 1) = float_of_nat (i + S j + 1)).
    { intros j. f_equal. lia. }
    fold (above threshold x). destruct (above threshold x) eqn:Hx; rewrite IH.
    + f_equal.
      * destruct first; [reflexivity|].
        change (Some (float_of_nat (i + 1)) = Some (float_of_nat (i + 0 + 1))).
        now rewrite Nat.add_0_r.
      * destruct (last_index (above threshold) lv) as [j|].
        -- now rewrite Hshift.
        -- now rewrite Nat.add_0_r.
    + f_equal.
      * destruct first; [reflexivity|].
        destruct (first_index (above threshold) lv) as [j|]; [|reflexivity].
        change (Some (float_of_nat (S i + j + 1)) = Some (float_of_nat (i + S j + 1))).
        now rewrite Hshift.
      * destruct (last_index (above threshold) lv) as [j|]; [|reflexivity].
        now rewrite Hshift.
Qed.


(* ===================================================================== *)
(** * [stop] leaves the session alone *)
(* ===================================================================== *)

Lemma preserves_refl (n : nat) (w : World) : preserves n w w.
Proof. unfold preserves. auto. Qed.

Lemma preserves_trans (n : nat) (w1 w2 w3 : World) :
  preserves n w1 w2 -> preserves n w2 w3 -> preserves n w1 w3.
Proof.
  intros (Hr & Hb & Hl & Hn & Hs) (Hr' & Hb' & Hl' & Hn' & Hs').
  repeat split; [congruence|congruence|congruence|lia|].
  intros a Ha. rewrite Hs', Hs by exact Ha. reflexivity.
Qed.

Lemma new_array_preserves (v : list float) (w : World) :
  preserves (length (store w)) w (new_array v w).1.
Proof.
  repeat split; cbn [new_array fst recorder browser log store].
  - rewrite length_app. lia.
  - intros a Ha. now rewrite lookup_app_l.
Qed.

Lemma typed_array_set_preserves (n target offset : nat) (source : list float) (w : World) :
  n <= target -> preserves n w (typed_array_set target source offset w).1.
Proof.
  intros Hn. unfold typed_array_set.
  destruct (store w !! target) as [t|]; [|apply preserves_refl].
  destruct (offset + length source <=? length t); [|apply preserves_refl].
  repeat split; cbn [fst recorder browser log store].
  - now rewrite length_insert.
  - intros a Ha. apply list_lookup_insert_ne. lia.
Qed.

Lemma read_state (a : addr) (w : World) : (read a w).1 = w.
Proof. unfold read. now destruct (store w !! a). Qed.

Lemma map_calculateRMS_state (bufs : list addr) (w : World) :
  (map_calculateRMS bufs w).1 = w.
Proof.
  induction bufs as [|b bufs IH]; [reflexivity|].
  cbn [map_calculateRMS]. unfold bind at 1, read.
  destruct (store w !! b) as [c|]; [|reflexivity].
  unfold bind at 1, ret at 1. unfold bind at 1.
  destruct (map_calculateRMS bufs w) as [w' [lv|e]]; cbn in IH |- *; exact IH.
Qed.

Lemma copy_loop_preserves (n buffer : nat) (bufs : list addr) :
  n <= buffer ->
  forall (offset : nat) (w : World), preserves n w (copy_loop bufs buffer offset w).1.
Proof.
  intros Hn. induction bufs as [|b bufs IH]; intros offset w; [apply preserves_refl|].
  cbn [copy_loop]. unfold bind at 1, read.
  destruct (store w !! b) as [c|]; [|apply preserves_refl].
  unfold bind at 1.
  pose proof (typed_array_set_preserves n buffer offset c w Hn) as Hset.
  destruct (typed_array_set buffer c offset w) as [w1 [[]|e]]; cbn [fst] in Hset |- *;
    [|exact Hset].
  eapply preserves_trans; [exact Hset|apply IH].
Qed.

(** Whatever [stop] does, and whether it returns or throws, it only
    allocates: two new objects at the next two addresses. *)
Lemma stop_frame (w w' : World) (o : outcome TrimResult) :
  stop w = (w', o) ->
  preserves (length (store w)) w w' /\
  (forall r, o = Ret r ->
     levels r = length (store w) /\ samples r = S (length (store w)) /\
     S (S (length (store w))) <= length (store w')).
Proof.
  unfold stop. unfold bind at 1, this at 1.
  unfold bind at 1.
  pose proof (map_calculateRMS_state (buffers (recorder w)) w) as Hmap.
  destruct (map_calculateRMS (buffers (recorder w)) w) as [w0 [lv|e]]; cbn [fst] in Hmap;
    subst w0; [|intros [= <- <-]; split; [apply preserves_refl|discriminate]].
  unfold bind at 1. cbn [new_array].
  unfold bind at 1, this at 1. cbn [recorder].
  unfold bind at 1. cbn [new_array recorder store browser log].
  set (n := length (store w)).
  set (w2 := mkWorld _ _ _ _).
  assert (H2 : preserves n w w2).
  { subst w2 n. repeat split; cbn [recorder store browser log].
    - rewrite !length_app. lia.
    - intros a Ha. rewrite <- app_assoc. now rewrite lookup_app_l. }
  unfold bind at 1.
  pose proof (copy_loop_preserves n (length (store w ++ [lv])) (buffers (recorder w))
                ltac:(subst n; rewrite length_app; lia) 0 w2) as Hcopy.
  destruct (copy_loop (buffers (recorder w)) (length (store w ++ [lv])) 0 w2)
    as [w3 [[]|e]]; cbn [fst] in Hcopy.
  - unfold bind at 1, context_sampleRate, ret. intros [= <- <-].
    split; [eapply preserves_trans; eassumption|].
    intros r [= <-]. cbn [levels samples].
    rewrite length_app. cbn [length].
    destruct Hcopy as (_ & _ & _ & Hle & _).
    subst w2. cbn [store] in Hle. rewrite !length_app in Hle. cbn [length] in Hle.
    repeat split; lia.
  - intros [= <- <-]. split; [eapply preserves_trans; eassumption|discriminate].
Qed.

(* ===================================================================== *)
(** * The trim boundaries *)
(* ===================================================================== *)

Lemma first_index_first_above (threshold : float) (lv : list float) (j : nat) :
  first_index (above threshold) lv = Some j -> is_first_above threshold lv (j + 1).
Proof.
  intros Hj. destruct (first_index_Some _ _ _ Hj) as [Hex Hbefore].
  unfold is_first_above. replace (j + 1 - 1) with j by lia.
  split; [lia|]. split; [exact Hex|exact Hbefore].
Qed.

Lemma last_index_last_above (threshold : float) (lv : list float) (j : nat) :
  last_index (above threshold) lv = Some j -> is_last_above threshold lv (j + 1).
Proof.
  intros Hj. destruct (last_index_Some _ _ _ Hj) as [Hex Hafter].
  unfold is_last_above. replace (j + 1 - 1) with j by lia.
  split; [lia|]. split; [exact Hex|exact Hafter].
Qed.



(** C4.  The scenario of 10 chunks of length 4 in which chunks 4 to 6 are
    at amplitude 1.0 and the others are silent: [stop] finds
    [firstChunkAboveThreshold = 4] and [lastChunkAboveThreshold = 6] and
    returns [trimStart = Math.max(2, 4 - 2) / 10 = 0.2] and
    [trimEnd = Math.min(10 - 2, 6 + 2) / 10 = 0.8]. *)
Theorem C4_ten_chunk_scenario (w : World) :
  chunks_of w = Some scenario_chunks ->
  4 <= bufferLength (recorder w) ->
  exists (w' : World) (r : TrimResult),
    stop w = (w', Ret r) /\
    found_of scenario_chunks = (Some 4%float, Some 6%float) /\
    is_first_above (threshold_of scenario_chunks) (levels_of scenario_chunks) 4 /\
    is_last_above (threshold_of scenario_chunks) (levels_of scenario_chunks) 6 /\
    trimStart r = (Math_max [2; 4 - 2] / 10)%float /\
    trimStart r = 0.2%float /\
    trimEnd r = (Math_min [10 - 2; 6 + 2] / 10)%float /\
    trimEnd r = 0.8%float.
Proof.
  intros Hcs Hlen.
  assert (Hfit : Forall (fun c => length c <= bufferLength (recorder w)) scenario_chunks).
  { repeat (constructor; [exact Hlen|]). constructor. }
  eexists. eexists.
  split; [exact (stop_returns w scenario_chunks Hcs Hfit)|].
  split; [vm_compute; reflexivity|].
  split; [apply (first_index_first_above _ _ 3); vm_compute; reflexivity|].
  split; [apply (last_index_last_above _ _ 5); vm_compute; reflexivity|].
  cbn [trimStart trimEnd].
  by_evaluation.
Qed.

Lemma C4_ten_chunk_scenario_witness :
  chunks_of scenario_world = Some scenario_chunks /\
  exists (w' : World) (r : TrimResult),
    stop scenario_world = (w', Ret r) /\
    found_of scenario_chunks = (Some 4%float, Some 6%float) /\
    is_first_above (threshold_of scenario_chunks) (levels_of scenario_chunks) 4 /\
    is_last_above (threshold_of scenario_chunks) (levels_of scenario_chunks) 6 /\
    trimStart r = (Math_max [2; 4 - 2] / 10)%float /\
    trimStart r = 0.2%float /\
    trimEnd r = (Math_min [10 - 2; 6 + 2] / 10)%float /\
    trimEnd r = 0.8%float.
Proof.
  split; [vm_compute; reflexivity|].
  apply (C4_ten_chunk_scenario scenario_world).
  - vm_compute. reflexivity.
  - vm_compute. lia.
Defined.

(** C8.  [trimStart <= trimEnd] is not an invariant of [stop].  For a
    capture of a single loud chunk the result is [trimStart = 2] and
    [trimEnd = -1]; for a capture of three silent chunks no chunk is above
    the threshold, both indices stay [null], and the result is
    [trimStart = 2/3] and [trimEnd = 1/3].  In both [trimEnd < trimStart]. *)
Theorem C8_trim_interval_can_be_inverted :
  (exists (w' : World) (r : TrimResult),
     chunks_of short_world = Some [loud_chunk] /\
     stop short_world = (w', Ret r) /\
     found_of [loud_chunk] = (Some 1%float, Some 1%float) /\
     trimStart r = 2%float /\
     trimEnd r = (-1)%float /\
     PrimFloat.ltb (trimEnd r) (trimStart r) = true) /\
  (exists (w' : World) (r : TrimResult),
     chunks_of silent_world = Some (replicate 3 silent_chunk) /\
     stop silent_world = (w', Ret r) /\
     found_of (replicate 3 silent_chunk) = (None, None) /\
     trimStart r = (2 / 3)%float /\
     trimEnd r = (1 / 3)%float /\
     PrimFloat.ltb (trimEnd r) (trimStart r) = true).
Proof.
  split.
  - eexists. eexists.
    split; [vm_compute; reflexivity|].
    split; [apply (stop_returns short_world [loud_chunk]);
            [vm_compute; reflexivity|chunks_fit]|].
    cbn [trimStart trimEnd]. by_evaluation.
  - eexists. eexists.
    split; [vm_compute; reflexivity|].
    split; [apply (stop_returns silent_world (replicate 3 silent_chunk));
            [vm_compute; reflexivity|chunks_fit]|].
    cbn [trimStart trimEnd]. by_evaluation.
Qed.

(* ===================================================================== *)
(** * The sample buffer *)
(* ===================================================================== *)

Lemma blocks_concat_app (len : nat) (cs : list (list float)) (rest : list float) :
  Forall (fun c => length c = len) cs ->
  blocks len (length cs) (concat cs ++ rest) = cs.
Proof.
  induction 1 as [|c cs Hc _ IH]; [reflexivity|].
  cbn [length blocks concat]. rewrite <- app_assoc.
  replace (take len (c ++ concat cs ++ rest)) with c
    by (rewrite <- Hc; now rewrite take_app_length).
  replace (drop len (c ++ concat cs ++ rest)) with (concat cs ++ rest)
    by (rewrite <- Hc; now rewrite drop_app_length).
  now rewrite IH.
Qed.

Lemma concat_length_eq (cs : list (list float)) (len : nat) :
  Forall (fun c => length c = len) cs -> length (concat cs) = length cs * len.
Proof.
  induction 1 as [|c cs Hc _ IH]; [reflexivity|].
  cbn [concat length]. rewrite length_app. lia.
Qed.

(** C3, amended.  For every sequence of chunks each of length [len], with
    [len] at most the recorder's [bufferLength], [stop] returns a sample
    buffer of length [totalChunks * bufferLength] that holds the in-order
    concatenation of the chunks followed by zeros; splitting it into
    [totalChunks] consecutive blocks of length [len] gives back the chunks.
    When [len] is [bufferLength], the length the recorder asks the device
    for, the buffer is exactly the concatenation and has length
    [totalChunks * len]. *)
Theorem C3_samples_concatenate_chunks (w : World) (cs : list (list float)) (len : nat) :
  chunks_of w = Some cs ->
  Forall (fun c => length c = len) cs ->
  len <= bufferLength (recorder w) ->
  exists (w' : World) (r : TrimResult) (flat : list float),
    stop w = (w', Ret r) /\
    store w' !! samples r = Some flat /\
    length flat = length cs * bufferLength (recorder w) /\
    flat = concat cs ++ replicate (length cs * (bufferLength (recorder w) - len)) 0%float /\
    blocks len (length cs) flat = cs /\
    (len = bufferLength (recorder w) ->
     flat = concat cs /\ length flat = length cs * len).
Proof.
  intros Hcs Hlen Hle.
  assert (Hfit : Forall (fun c => length c <= bufferLength (recorder w)) cs).
  { eapply Forall_impl; [exact Hlen|]. cbn. intros c ->. exact Hle. }
  pose proof (concat_length_eq _ _ Hlen) as Hsum.
  eexists. eexists. eexists.
  split; [exact (stop_returns w cs Hcs Hfit)|].
  cbn [store samples].
  split.
  { rewrite lookup_app_r by lia.
    replace (S (length (store w)) - length (store w)) with 1 by lia. reflexivity. }
  rewrite Hsum.
  replace (length cs * bufferLength (recorder w) - length cs * len)
    with (length cs * (bufferLength (recorder w) - len)) by nia.
  split.
  { rewrite length_app, length_replicate, Hsum. nia. }
  split; [reflexivity|].
  split; [now apply blocks_concat_app|].
  intros ->. rewrite Nat.sub_diag, Nat.mul_0_r. cbn [replicate].
  rewrite app_nil_r. split; [reflexivity|exact Hsum].
Qed.

Lemma C3_samples_concatenate_chunks_witness :
  exists (w' : World) (r : TrimResult) (flat : list float),
    stop full_world = (w', Ret r) /\
    store w' !! samples r = Some flat /\
    length flat = length full_chunks * bufferLength (recorder full_world) /\
    flat = concat full_chunks
             ++ replicate (length full_chunks * (bufferLength (recorder full_world) - 1024))
                  0%float /\
    blocks 1024 (length full_chunks) flat = full_chunks /\
    (1024 = bufferLength (recorder full_world) ->
     flat = concat full_chunks /\ length flat = length full_chunks * 1024).
Proof.
  apply (C3_samples_concatenate_chunks full_world full_chunks 1024).
  - vm_compute. reflexivity.
  - repeat (constructor; [apply length_replicate|]). constructor.
  - vm_compute. lia.
Defined.

(** C3 as stated fails for chunks shorter than [bufferLength]: in the
    scenario of section 8 (10 chunks of length 4) the buffer [stop] returns
    has 10 * 1024 samples, not 10 * 4. *)
Lemma C3_counterexample :
  exists (w' : World) (r : TrimResult) (flat : list float),
    chunks_of scenario_world = Some scenario_chunks /\
    Forall (fun c => length c = 4) scenario_chunks /\
    stop scenario_world = (w', Ret r) /\
    store w' !! samples r = Some flat /\
    length flat = 10 * 1024 /\
    length flat <> length scenario_chunks * 4 /\
    flat <> concat scenario_chunks.
Proof.
  assert (Hcs : chunks_of scenario_world = Some scenario_chunks) by (vm_compute; reflexivity).
  assert (Hfit : Forall (fun c => length c <= bufferLength (recorder scenario_world))
                   scenario_chunks).
  { chunks_fit. }
  eexists. eexists. eexists.
  split; [exact Hcs|].
  split; [repeat (constructor; [reflexivity|]); constructor|].
  split; [exact (stop_returns scenario_world scenario_chunks Hcs Hfit)|].
  cbn [store samples].
  split.
  { rewrite lookup_app_r by lia.
    replace (S (length (store scenario_world)) - length (store scenario_world)) with 1 by lia.
    reflexivity. }
  change (length scenario_chunks) with 10.
  change (bufferLength (recorder scenario_world)) with 1024.
  change (length (concat scenario_chunks)) with 40.
  rewrite length_app, length_replicate.
  change (length (concat scenario_chunks)) with 40.
  split; [lia|]. split; [lia|].
  intros E. apply (f_equal length) in E.
  rewrite length_app, length_replicate in E. lia.
Qed.

(** C10.  [stop] does not change the session: whatever the state, and
    whether [stop] returns or throws, afterwards every field of the recorder
    is what it was, the processing graph, the handlers and the tracks are
    what they were (the device stays attached), nothing was notified, and
    every array that existed still exists with the same content.  The two
    arrays of the result are new objects, distinct from each other and from
    every object that existed, the chunks of [buffers] included. *)
Theorem C10_stop_is_read_only (w : World) :
  recorder (stop w).1 = recorder w /\
  browser (stop w).1 = browser w /\
  log (stop w).1 = log w /\
  (forall a v, store w !! a = Some v -> store (stop w).1 !! a = Some v) /\
  (forall r, (stop w).2 = Ret r ->
     store w !! levels r = None /\
     store w !! samples r = None /\
     levels r <> samples r /\
     is_Some (store (stop w).1 !! levels r) /\
     is_Some (store (stop w).1 !! samples r)).
Proof.
  destruct (stop w) as [w' o] eqn:Hstop. cbn [fst snd].
  destruct (stop_frame w w' o Hstop) as [(Hr & Hb & Hl & Hn & Hs) Hres].
  split; [exact Hr|]. split; [exact Hb|]. split; [exact Hl|]. split.
  - intros a v Ha. rewrite Hs; [exact Ha|]. now apply lookup_lt_Some in Ha.
  - intros r ->. destruct (Hres r eq_refl) as (-> & -> & Hlen).
    split; [apply lookup_ge_None; lia|].
    split; [apply lookup_ge_None; lia|].
    split; [lia|].
    split; apply lookup_lt_is_Some; lia.
Qed.

(* ===================================================================== *)
(** * The loudness meter *)
(* ===================================================================== *)

Lemma fold_left_sum_squares (samples : list R) (acc : R) :
  fold_left (fun acc v => (acc + v * v)%R) samples acc
  = (acc + spec_sum_squares samples)%R.
Proof.
  revert acc. induction samples as [|v samples IH]; intros acc; cbn [fold_left spec_sum_squares].
  - lra.
  - rewrite IH. lra.
Qed.

Lemma calculateRMS_exact (samples : list R) :
  calculateRMS samples = spec_rms samples.
Proof.
  unfold calculateRMS, spec_rms, Math_pow2.
  cbn [num_add num_mul num_div num_sqrt num_zero num_unity num_of_nat R_Arith].
  rewrite fold_left_sum_squares. now rewrite Rplus_0_l.
Qed.

Lemma spec_sum_squares_uniform (a : R) (n : nat) :
  spec_sum_squares (replicate n a) = (INR n * (a * a))%R.
Proof.
  induction n as [|n IH]; [cbn; lra|].
  cbn [replicate spec_sum_squares]. rewrite IH, S_INR. lra.
Qed.

Lemma calculateRMS_uniform (a : R) (n : nat) :
  0 < n ->
  calculateRMS (replicate n a) = R_sqrt.sqrt (Rabs a / (35 / 100)).
Proof.
  intros Hn. rewrite calculateRMS_exact. unfold spec_rms.
  rewrite spec_sum_squares_uniform, length_replicate.
  assert (HINR : (0 < INR n)%R) by (apply lt_0_INR; lia).
  replace (INR n * (a * a) / INR n)%R with (Rsqr a) by (unfold Rsqr; field; lra).
  now rewrite sqrt_Rsqr_abs.
Qed.

(** C2, amended.  On binary64 numbers [calculateRMS] is the square root of
    (the square root of (the sum of the squares, added from left to right,
    divided by the number of samples) divided by 0.35).  In exact arithmetic
    that is [spec_rms], the closed form [sqrt (sqrt (Σ sampleᵢ² / n) / 0.35)]
    of the specification, and for [n > 0] samples
    of uniform value [a] it is [sqrt (|a| / 0.35)], which is
    [sqrt (a / 0.35)] for an amplitude [a >= 0] (one square root, not two). *)
Theorem C2_rms_closed_form (a : R) (n : nat) :
  (forall samples : list float,
     calculateRMS samples =
       PrimFloat.sqrt
         (PrimFloat.sqrt
            (fold_left (fun acc v => acc + v * v) samples 0 / float_of_nat (length samples))
          / 0.35)%float) /\
  (forall samples : list R, calculateRMS samples = spec_rms samples) /\
  (0 < n ->
   calculateRMS (replicate n a) = R_sqrt.sqrt (Rabs a / (35 / 100)) /\
   ((0 <= a)%R -> calculateRMS (replicate n a) = R_sqrt.sqrt (a / (35 / 100)))).
Proof.
  split; [reflexivity|].
  split; [exact calculateRMS_exact|].
  intros Hn. split; [now apply calculateRMS_uniform|].
  intros Ha. rewrite calculateRMS_uniform by exact Hn.
  now rewrite Rabs_right by lra.
Qed.

Lemma C2_rms_closed_form_witness :
  calculateRMS (replicate 4 1%R) = R_sqrt.sqrt (Rabs 1 / (35 / 100)) /\
  ((0 <= 1)%R -> calculateRMS (replicate 4 1%R) = R_sqrt.sqrt (1 / (35 / 100))).
Proof.
  apply (proj2 (proj2 (C2_rms_closed_form 1%R 4))). lia.
Defined.

(** C2 as stated fails on its uniform case.  Four samples at amplitude 1.0
    (a chunk of the scenario of section 8) have level 1.69..., the binary64
    value of [sqrt (1 / 0.35)], while [sqrt (sqrt (1 / 0.35))] is 1.30....
    The difference is not one of rounding: in exact arithmetic a sample at
    5.6 has level 4, while [sqrt (sqrt (5.6 / 0.35))] is 2. *)
Lemma C2_counterexample :
  (calculateRMS loud_chunk = 1.6903085094570331%float /\
   PrimFloat.sqrt (PrimFloat.sqrt (1 / 0.35)) = 1.3001186520687384%float /\
   PrimFloat.eqb (calculateRMS loud_chunk) (PrimFloat.sqrt (PrimFloat.sqrt (1 / 0.35)))
     = false) /\
  (calculateRMS [(56 / 10)%R] = 4%R /\
   R_sqrt.sqrt (R_sqrt.sqrt ((56 / 10) / (35 / 100))) = 2%R /\
   calculateRMS [(56 / 10)%R] <> R_sqrt.sqrt (R_sqrt.sqrt ((56 / 10) / (35 / 100)))).
Proof.
  assert (H4 : R_sqrt.sqrt 4 = 2%R).
  { replace 4%R with (Rsqr 2) by (unfold Rsqr; lra). apply sqrt_Rsqr. lra. }
  assert (H16 : R_sqrt.sqrt 16 = 4%R).
  { replace 16%R with (Rsqr 4) by (unfold Rsqr; lra). apply sqrt_Rsqr. lra. }
  assert (Hcode : calculateRMS [(56 / 10)%R] = 4%R).
  { change [(56 / 10)%R] with (replicate 1 (56 / 10)%R).
    rewrite (calculateRMS_uniform (56 / 10) 1) by lia.
    rewrite Rabs_right by lra.
    replace (56 / 10 / (35 / 100))%R with 16%R by field. exact H16. }
  assert (Hspec : R_sqrt.sqrt (R_sqrt.sqrt ((56 / 10) / (35 / 100))) = 2%R).
  { replace (56 / 10 / (35 / 100))%R with 16%R by field. now rewrite H16. }
  split.
  - by_evaluation.
  - split; [exact Hcode|]. split; [exact Hspec|]. rewrite Hcode, Hspec. lra.
Qed.

(* ===================================================================== *)
(** * Disposal *)
(* ===================================================================== *)

(** The log only grows, here by [calls]. *)
Ltac log_grows :=
  first
    [ exists []; rewrite app_nil_r; reflexivity
    | eexists; rewrite <- ?app_assoc; reflexivity ].

Ltac unfold_methods :=
  unfold dispose, onStream, onFailure, startListening, startRecording, onaudioprocess,
    update, attachUserMediaStream, set_onaudioprocess, disconnect, connect, track_stop,
    createNode, context_destination, new_array, bind, this, deref, emit, set_browser,
    assign, throw, ret.

(** What [dispose] never touches, and what it logs. *)
Lemma dispose_effects (w : World) :
  buffers (recorder (dispose w).1) = buffers (recorder w) /\
  started (recorder (dispose w).1) = started (recorder w) /\
  recording (recorder (dispose w).1) = recording (recorder w) /\
  store (dispose w).1 = store w /\
  (disposed (recorder w) = true -> disposed (recorder (dispose w).1) = true) /\
  ((dispose w).2 = Ret tt -> disposed (recorder (dispose w).1) = true) /\
  exists calls,
    log (dispose w).1 = log w ++ calls /\ Forall (fun e => is_teardown e = true) calls.
Proof.
  destruct w as [[bl ums mss sn spn an rs rec st bufs d] sto br lg].
  unfold_methods. cbn.
  destruct st; cbn; [|repeat split; try discriminate; exists []; now rewrite app_nil_r].
  destruct spn as [p|]; cbn;
    [|repeat split; try discriminate; auto; exists []; now rewrite app_nil_r].
  destruct an as [a|]; cbn;
    [|repeat split; try discriminate; auto; eexists;
      (split; [rewrite <- ?app_assoc; reflexivity|repeat constructor])].
  destruct sn as [g|]; cbn;
    [|repeat split; try discriminate; auto; eexists;
      (split; [rewrite <- ?app_assoc; reflexivity|repeat constructor])].
  destruct mss as [s|]; cbn;
    [|repeat split; try discriminate; auto; eexists;
      (split; [rewrite <- ?app_assoc; reflexivity|repeat constructor])].
  destruct ums as [[|t tr]|]; cbn;
    repeat split; try discriminate; auto; eexists;
      (split; [rewrite <- ?app_assoc; reflexivity|repeat constructor]).
Qed.

(** On a disposed recorder the callbacks do nothing at all. *)
Lemma disposed_onStream (w : World) (stream : list nat) :
  disposed (recorder w) = true -> onStream stream w = (w, Ret tt).
Proof. intros Hd. unfold onStream, bind, this, ret. now rewrite Hd. Qed.

Lemma disposed_onFailure (w : World) (e : string) :
  disposed (recorder w) = true -> onFailure e w = (w, Ret tt).
Proof. intros Hd. unfold onFailure, bind, this, ret. now rewrite Hd. Qed.

Lemma disposed_onaudioprocess (w : World) (channelData : list float) :
  disposed (recorder w) = true -> onaudioprocess channelData w = (w, Ret tt).
Proof.
  intros Hd. unfold onaudioprocess, bind, this, ret. rewrite Hd.
  now rewrite andb_false_r.
Qed.

Lemma disposed_update (w : World) (timeDomainData : list float) :
  disposed (recorder w) = true -> update timeDomainData w = (w, Ret tt).
Proof. intros Hd. unfold update, bind, this, ret. now rewrite Hd. Qed.

(** One event on a disposed recorder: it stays disposed, [buffers] and
    [started] keep their values, and nothing of the feedback kind is
    logged. *)
Lemma disposed_step (w : World) (ev : Event) :
  disposed (recorder w) = true ->
  disposed (recorder (step w ev)) = true /\
  buffers (recorder (step w ev)) = buffers (recorder w) /\
  started (recorder (step w ev)) = started (recorder w) /\
  exists calls,
    log (step w ev) = log w ++ calls /\ Forall (fun e => is_feedback e = false) calls.
Proof.
  intros Hd. destruct ev as [[e|]|stream|e| |channelData|data| |]; cbn [step].
  - unfold startListening, bind, this, ret. rewrite Hd. cbn.
    repeat split; auto. exists []. now rewrite app_nil_r.
  - cbn. repeat split; auto. eexists. split; [reflexivity|repeat constructor].
  - rewrite disposed_onStream by exact Hd. cbn.
    repeat split; auto. exists []. now rewrite app_nil_r.
  - rewrite disposed_onFailure by exact Hd. cbn.
    repeat split; auto. exists []. now rewrite app_nil_r.
  - cbn. repeat split; auto. exists []. now rewrite app_nil_r.
  - rewrite disposed_onaudioprocess by exact Hd. cbn.
    repeat split; auto. exists []. now rewrite app_nil_r.
  - rewrite disposed_update by exact Hd. cbn.
    repeat split; auto. exists []. now rewrite app_nil_r.
  - destruct (stop w) as [w' o] eqn:Hstop. cbn [fst].
    destruct (stop_frame w w' o Hstop) as [(Hr & Hb & Hl & _) _].
    rewrite Hr, Hl. repeat split; auto. exists []. now rewrite app_nil_r.
  - destruct (dispose_effects w) as (Hbuf & Hst & _ & _ & Hdis & _ & calls & Hlog & Hcalls).
    split; [now apply Hdis|]. split; [exact Hbuf|]. split; [exact Hst|].
    exists calls. split; [exact Hlog|].
    eapply Forall_impl; [exact Hcalls|]. intros [] He; cbn in *; congruence.
Qed.

Lemma disposed_run (evs : list Event) :
  forall w : World,
    disposed (recorder w) = true ->
    disposed (recorder (run w evs)) = true /\
    buffers (recorder (run w evs)) = buffers (recorder w) /\
    started (recorder (run w evs)) = started (recorder w) /\
    exists calls,
      log (run w evs) = log w ++ calls /\ Forall (fun e => is_feedback e = false) calls.
Proof.
  induction evs as [|ev evs IH]; intros w Hd.
  - cbn. repeat split; auto. exists []. now rewrite app_nil_r.
  - destruct (disposed_step w ev Hd) as (Hd1 & Hb1 & Hs1 & calls1 & Hl1 & Hc1).
    destruct (IH (step w ev) Hd1) as (Hd2 & Hb2 & Hs2 & calls2 & Hl2 & Hc2).
    change (run w (ev :: evs)) with (run (step w ev) evs).
    split; [exact Hd2|]. split; [congruence|]. split; [congruence|].
    exists (calls1 ++ calls2). split.
    + now rewrite Hl2, Hl1, app_assoc.
    + now apply Forall_app.
Qed.

(** C5.  Once the [disposed] flag is set, as it is when [dispose] returns,
    it stays set whatever happens next, in any order and any number: method
    calls, chunk callbacks, animation frames, acquisition results.  Over
    any such sequence [buffers] stays as it was, so no chunk is appended;
    nothing that is logged is a call of [onStarted], [onUpdate] or
    [onError] or a [requestAnimationFrame] that would continue the loudness
    loop; and in the state reached every callback returns without doing
    anything. *)
Theorem C5_disposed_session_is_silent (w : World) (evs : list Event) :
  disposed (recorder w) = true ->
  disposed (recorder (run w evs)) = true /\
  buffers (recorder (run w evs)) = buffers (recorder w) /\
  (exists calls,
     log (run w evs) = log w ++ calls /\ Forall (fun e => is_feedback e = false) calls) /\
  (forall channelData, onaudioprocess channelData (run w evs) = (run w evs, Ret tt)) /\
  (forall data, update data (run w evs) = (run w evs, Ret tt)) /\
  (forall stream, onStream stream (run w evs) = (run w evs, Ret tt)) /\
  (forall e, onFailure e (run w evs) = (run w evs, Ret tt)).
Proof.
  intros Hd. destruct (disposed_run evs w Hd) as (Hd' & Hb & _ & Hlog).
  split; [exact Hd'|]. split; [exact Hb|]. split; [exact Hlog|].
  split; [intros c; now apply disposed_onaudioprocess|].
  split; [intros d; now apply disposed_update|].
  split; [intros s; now apply disposed_onStream|].
  intros e; now apply disposed_onFailure.
Qed.

Lemma C5_disposed_session_is_silent_witness :
  disposed (recorder (dispose scenario_world).1) = true /\
  buffers (recorder (run (dispose scenario_world).1
                       [AudioProcess loud_chunk; AnimationFrame loud_chunk;
                        StreamAcquired [1]; AcquisitionFailed "denied"]))
  = buffers (recorder (dispose scenario_world).1).
Proof.
  split; [vm_compute; reflexivity|].
  apply (C5_disposed_session_is_silent (dispose scenario_world).1
           [AudioProcess loud_chunk; AnimationFrame loud_chunk;
            StreamAcquired [1]; AcquisitionFailed "denied"]).
  vm_compute. reflexivity.
Defined.

(** C6.  A recorder that is disposed of before the acquisition resolves
    (it has not started): [dispose] returns, and whatever else happens in
    between, when the success callback or the failure callback of
    [getUserMedia] fires later it leaves the whole state as it is.
    [onStarted] and [onError] are not called, [started] is still false, no
    node is created, no handler installed and no animation frame
    requested. *)
Theorem C6_late_acquisition_is_suppressed
    (w : World) (evs : list Event) (stream : list nat) (e : string) :
  started (recorder w) = false ->
  (dispose w).2 = Ret tt /\
  onStream stream (run (dispose w).1 evs) = (run (dispose w).1 evs, Ret tt) /\
  onFailure e (run (dispose w).1 evs) = (run (dispose w).1 evs, Ret tt) /\
  started (recorder (run (dispose w).1 evs)) = false /\
  step (run (dispose w).1 evs) (StreamAcquired stream) = run (dispose w).1 evs /\
  step (run (dispose w).1 evs) (AcquisitionFailed e) = run (dispose w).1 evs.
Proof.
  intros Hs.
  assert (Hret : (dispose w).2 = Ret tt).
  { unfold dispose, bind, this, assign. now rewrite Hs. }
  destruct (dispose_effects w) as (_ & Hst & _ & _ & _ & Hdis & _).
  specialize (Hdis Hret).
  destruct (disposed_run evs _ Hdis) as (Hd' & _ & Hs' & _).
  split; [exact Hret|].
  split; [now apply disposed_onStream|].
  split; [now apply disposed_onFailure|].
  split; [congruence|].
  cbn [step]. now rewrite disposed_onStream, disposed_onFailure.
Qed.

Lemma C6_late_acquisition_is_suppressed_witness :
  onStream [0] (run (dispose acquiring_world).1 [CallStartRecording])
  = (run (dispose acquiring_world).1 [CallStartRecording], Ret tt) /\
  started (recorder (run (dispose acquiring_world).1 [CallStartRecording])) = false.
Proof.
  destruct (C6_late_acquisition_is_suppressed acquiring_world [CallStartRecording] [0]
              "denied" eq_refl) as (_ & Hs & _ & Hst & _).
  exact (conj Hs Hst).
Defined.

(** C7, amended.  [stop] does not end the retention of chunks: it leaves
    [recording] as it is, so when [stop] has returned on a recorder that
    records and is not disposed, the next chunk callback appends a copy of
    its chunk to [buffers].  Chunks stop being appended once [dispose] has
    returned: from then on [buffers] never changes. *)
Theorem C7_chunks_are_kept_after_stop
    (w : World) (channelData : list float) (evs : list Event) :
  recording (recorder w) = true ->
  disposed (recorder w) = false ->
  recording (recorder (stop w).1) = true /\
  buffers (recorder (step (stop w).1 (AudioProcess channelData)))
  = buffers (recorder w) ++ [length (store (stop w).1)] /\
  store (step (stop w).1 (AudioProcess channelData)) !! length (store (stop w).1)
  = Some channelData /\
  ((dispose (stop w).1).2 = Ret tt ->
   buffers (recorder (run (dispose (stop w).1).1 evs)) = buffers (recorder w)).
Proof.
  intros Hrec Hdis.
  destruct (stop w) as [w1 o] eqn:Hstop. cbn [fst].
  destruct (stop_frame w w1 o Hstop) as [(Hr & _) _].
  split; [now rewrite Hr|].
  assert (Hpush : onaudioprocess channelData w1
                  = (mkWorld (push_buffers (length (store w1)) (recorder w1))
                       (store w1 ++ [channelData]) (browser w1) (log w1), Ret tt)).
  { rewrite <- Hr in Hrec, Hdis.
    unfold onaudioprocess, bind, this, new_array, assign, ret.
    rewrite Hrec, Hdis. reflexivity. }
  cbn [step]. rewrite Hpush. cbn [fst recorder store push_buffers buffers].
  split; [now rewrite Hr|].
  split; [now rewrite lookup_app_r, Nat.sub_diag by lia|].
  intros Hret.
  destruct (dispose_effects w1) as (Hbuf & _ & _ & _ & _ & Hd & _).
  destruct (disposed_run evs _ (Hd Hret)) as (_ & Hb & _).
  now rewrite Hb, Hbuf, Hr.
Qed.

Lemma C7_chunks_are_kept_after_stop_witness :
  buffers (recorder (step (stop short_world).1 (AudioProcess silent_chunk)))
  = buffers (recorder short_world) ++ [length (store (stop short_world).1)].
Proof.
  apply (C7_chunks_are_kept_after_stop short_world silent_chunk []).
  - vm_compute. reflexivity.
  - vm_compute. reflexivity.
Defined.

(** C7 as stated fails: a session records one chunk and calls [stop]; the
    chunk callback that fires next, before any [dispose], appends a second
    chunk to [buffers]. *)
Lemma C7_counterexample :
  buffers (recorder (run short_world [CallStop])) = [0] /\
  disposed (recorder (run short_world [CallStop])) = false /\
  buffers (recorder (run short_world [CallStop; AudioProcess silent_chunk])) = [0; 3] /\
  store (run short_world [CallStop; AudioProcess silent_chunk]) !! 3 = Some silent_chunk.
Proof. by_evaluation. Qed.

(** ** Calling [dispose] again *)

Lemma filter_fixed {A : Type} (P : A -> Prop) `{forall x, Decision (P x)} (l : list A) :
  Forall P l -> filter P l = l.
Proof.
  induction 1 as [|x l Hx _ IH]; [reflexivity|].
  now rewrite filter_cons_True, IH.
Qed.

Lemma Forall_filter_same {A : Type} (P : A -> Prop) `{forall x, Decision (P x)} (l : list A) :
  Forall P (filter P l).
Proof. apply Forall_forall. intros x Hx. now apply list_elem_of_filter in Hx as [? _]. Qed.

Lemma Forall_filter_other {A : Type} (P Q : A -> Prop) `{forall x, Decision (Q x)}
    (l : list A) :
  Forall P l -> Forall P (filter Q l).
Proof.
  rewrite !Forall_forall. intros Hl x Hx.
  apply list_elem_of_filter in Hx as [_ Hx]. now apply Hl.
Qed.

(** C9, amended.  When a first call of [dispose] has returned, a second
    call returns too and changes nothing: the fields of the recorder, the
    arrays, the connections of the graph, the installed handlers and the
    stopped tracks are the same before and after it.  The second call is
    not skipped, though: the guard of the teardown is [started], which
    [dispose] leaves set, so on a recorder that had started the six
    teardown calls are made again, each without effect; on a recorder that
    had not started neither call makes any. *)
Theorem C9_second_dispose_changes_nothing (w w1 : World) :
  dispose w = (w1, Ret tt) ->
  disposed (recorder w1) = true /\
  exists calls,
    dispose w1 = (mkWorld (recorder w1) (store w1) (browser w1) (log w1 ++ calls), Ret tt) /\
    Forall (fun e => is_teardown e = true) calls /\
    (started (recorder w) = false -> calls = [] /\ log w1 = log w) /\
    (started (recorder w) = true -> length calls = 6 /\ log w1 = log w ++ calls).
Proof.
  destruct w as [[bl ums mss sn spn an rs rec st bufs d] sto [rate dest next conns hs stopped] lg].
  unfold_methods. cbn.
  destruct st; cbn.
  2:{ intros [= <-]. cbn. split; [reflexivity|]. exists [].
      rewrite app_nil_r. repeat split; auto; discriminate. }
  destruct spn as [p|]; cbn; [|discriminate].
  destruct an as [a|]; cbn; [|discriminate].
  destruct sn as [g|]; cbn; [|discriminate].
  destruct mss as [s|]; cbn; [|discriminate].
  destruct ums as [[|t tr]|]; cbn; [discriminate| |discriminate].
  intros [= <-]. cbn. split; [reflexivity|].
  exists [SetOnaudioprocess p false; Disconnect p; Disconnect a; Disconnect g; Disconnect s;
          TrackStop t].
  split.
  - set (conns4 := filter (fun c => c.1 <> s) (filter (fun c => c.1 <> g)
                     (filter (fun c => c.1 <> a) (filter (fun c => c.1 <> p) conns)))).
    assert (Hp : Forall (fun c : nat * nat => c.1 <> p) conns4).
    { subst conns4. do 3 apply Forall_filter_other. apply Forall_filter_same. }
    assert (Ha : Forall (fun c : nat * nat => c.1 <> a) conns4).
    { subst conns4. do 2 apply Forall_filter_other. apply Forall_filter_same. }
    assert (Hg : Forall (fun c : nat * nat => c.1 <> g) conns4).
    { subst conns4. apply Forall_filter_other. apply Forall_filter_same. }
    assert (Hs : Forall (fun c : nat * nat => c.1 <> s) conns4).
    { subst conns4. apply Forall_filter_same. }
    rewrite (filter_fixed _ conns4 Hp), (filter_fixed _ conns4 Ha),
      (filter_fixed _ conns4 Hg), (filter_fixed _ conns4 Hs).
    rewrite (filter_fixed _ (filter (fun m => m <> p) hs)) by apply Forall_filter_same.
    rewrite <- !app_assoc. cbn [app].
    do 3 f_equal.
    destruct (decide (t ∈ stopped)) as [Hin|Hnin].
    + now rewrite decide_True.
    + rewrite decide_True; [reflexivity|]. constructor.
  - split; [repeat constructor|].
    split; [discriminate|].
    intros _. split; [reflexivity|]. now rewrite <- !app_assoc.
Qed.

Lemma C9_second_dispose_changes_nothing_witness :
  disposed (recorder (dispose listening_world).1) = true /\
  exists calls,
    dispose (dispose listening_world).1
    = (mkWorld (recorder (dispose listening_world).1) (store (dispose listening_world).1)
         (browser (dispose listening_world).1) (log (dispose listening_world).1 ++ calls),
       Ret tt) /\
    Forall (fun e => is_teardown e = true) calls /\
    (started (recorder listening_world) = false ->
     calls = [] /\ log (dispose listening_world).1 = log listening_world) /\
    (started (recorder listening_world) = true ->
     length calls = 6 /\ log (dispose listening_world).1 = log listening_world ++ calls).
Proof.
  apply (C9_second_dispose_changes_nothing listening_world (dispose listening_world).1).
  vm_compute. reflexivity.
Defined.

(** C9 as stated fails on a recorder that had started: the second call of
    [dispose] runs the teardown again, clearing the handler, disconnecting
    the four nodes and stopping the track a second time. *)
Lemma C9_counterexample :
  started (recorder (run listening_world [CallDispose])) = true /\
  disposed (recorder (run listening_world [CallDispose])) = true /\
  log (run listening_world [CallDispose; CallDispose])
  = log (run listening_world [CallDispose])
      ++ [SetOnaudioprocess 3 false; Disconnect 3; Disconnect 4; Disconnect 2; Disconnect 1;
          TrackStop 0].
Proof. by_evaluation. Qed.

(* ===================================================================== *)
(** * Acquisition and disposal on the processing graph *)
(* ===================================================================== *)

(** Evaluation of a method on a state given by its fields. *)
Ltac evaluate_method := lazy -[app filter decide]; rewrite <- ?app_assoc.

(** The success callback on a recorder that is not disposed, evaluated. *)
Lemma onStream_result (w : World) (stream : list nat) :
  disposed (recorder w) = false ->
  onStream stream w =
    (mkWorld
       (attached_recorder stream (nextNode (browser w)) (set_started true (recorder w)))
       (store w)
       (mkBrowser (contextSampleRate (browser w)) (destination (browser w))
          (S (S (S (S (nextNode (browser w))))))
          (attached_connections (nextNode (browser w)) (destination (browser w))
             ++ connections (browser w))
          (S (S (nextNode (browser w))) :: handlers (browser w))
          (stoppedTracks (browser w)))
       (log w ++
          [OnStarted;
           SetOnaudioprocess (S (S (nextNode (browser w)))) true;
           RequestAnimationFrame;
           Connect (nextNode (browser w)) (S (nextNode (browser w)));
           Connect (S (nextNode (browser w))) (S (S (S (nextNode (browser w)))));
           Connect (S (S (S (nextNode (browser w))))) (S (S (nextNode (browser w))));
           Connect (S (S (nextNode (browser w)))) (destination (browser w))]),
     Ret tt).
Proof.
  intros Hd.
  destruct w as [[bl ums mss sn spn an rs rec st bufs d] sto
                   [rate dest next conns hs stopped] lg].
  cbn [recorder disposed] in Hd. subst d.
  evaluate_method. reflexivity.
Qed.

(** [dispose] on a recorder that has started and whose fields are set,
    evaluated. *)
Lemma dispose_result (w : World) (src gain processor analyser track : nat)
    (tracks : list nat) :
  started (recorder w) = true ->
  mediaStreamSource (recorder w) = Some src ->
  sourceNode (recorder w) = Some gain ->
  scriptProcessorNode (recorder w) = Some processor ->
  analyserNode (recorder w) = Some analyser ->
  userMediaStream (recorder w) = Some (track :: tracks) ->
  dispose w =
    (mkWorld (set_disposed true (recorder w)) (store w)
       (mkBrowser (contextSampleRate (browser w)) (destination (browser w))
          (nextNode (browser w))
          (filter (fun c => c.1 <> src)
             (filter (fun c => c.1 <> gain)
                (filter (fun c => c.1 <> analyser)
                   (filter (fun c => c.1 <> processor) (connections (browser w))))))
          (filter (fun m => m <> processor) (handlers (browser w)))
          (if decide (track ∈ stoppedTracks (browser w)) then stoppedTracks (browser w)
           else track :: stoppedTracks (browser w)))
       (log w ++
          [SetOnaudioprocess processor false; Disconnect processor; Disconnect analyser;
           Disconnect gain; Disconnect src; TrackStop track]),
     Ret tt).
Proof.
  destruct w as [[bl ums mss sn spn an rs rec st bufs d] sto
                   [rate dest next conns hs stopped] lg].
  cbn [recorder browser started mediaStreamSource sourceNode scriptProcessorNode
         analyserNode userMediaStream].
  intros -> -> -> -> -> ->.
  evaluate_method. reflexivity.
Qed.

(** [dispose] on a recorder that has not started only sets the flag. *)
Lemma dispose_not_started (w : World) :
  started (recorder w) = false ->
  dispose w = (mkWorld (set_disposed true (recorder w)) (store w) (browser w) (log w), Ret tt).
Proof.
  intros Hs. unfold dispose, bind, this, assign, ret. rewrite Hs. reflexivity.
Qed.

(** X1.  After a successful acquisition on a recorder that is not disposed
    the graph runs from the media stream source through the gain node and
    the analyser to the script processor and on to the destination; the
    four nodes are new and pairwise distinct; the handler is on the script
    processor; the recorder has started and holds the stream; [onStarted]
    is the first call made, before the handler is installed and the first
    animation frame requested; no connection that existed was removed. *)
Theorem X1_acquisition_wires_the_graph (w : World) (stream : list nat) :
  disposed (recorder w) = false ->
  exists (w' : World) (src gain processor analyser : nat),
    onStream stream w = (w', Ret tt) /\
    started (recorder w') = true /\
    userMediaStream (recorder w') = Some stream /\
    mediaStreamSource (recorder w') = Some src /\
    sourceNode (recorder w') = Some gain /\
    scriptProcessorNode (recorder w') = Some processor /\
    analyserNode (recorder w') = Some analyser /\
    NoDup [src; gain; processor; analyser] /\
    Forall (fun n => nextNode (browser w) <= n /\ n < nextNode (browser w')) [src; gain; processor; analyser] /\
    (forall c, c ∈ connections (browser w') <->
       c ∈ [(src, gain); (gain, analyser); (analyser, processor);
            (processor, destination (browser w))]
       \/ c ∈ connections (browser w)) /\
    handlers (browser w') = processor :: handlers (browser w) /\
    log w' =
      log w ++
        [OnStarted; SetOnaudioprocess processor true; RequestAnimationFrame;
         Connect src gain; Connect gain analyser; Connect analyser processor;
         Connect processor (destination (browser w))] /\
    buffers (recorder w') = buffers (recorder w) /\
    recording (recorder w') = recording (recorder w) /\
    store w' = store w.
Proof.
  intros Hd. set (n := nextNode (browser w)).
  exists (onStream stream w).1, n, (S n), (S (S n)), (S (S (S n))).
  rewrite (onStream_result w stream Hd). fold n.
  cbn [fst recorder browser store log attached_recorder set_analyserNode
         set_scriptProcessorNode set_sourceNode set_mediaStreamSource set_userMediaStream
         set_started started userMediaStream mediaStreamSource sourceNode
         scriptProcessorNode analyserNode buffers recording connections handlers nextNode].
  repeat apply conj; try reflexivity.
  - rewrite !NoDup_cons, !elem_of_cons, !elem_of_nil.
    repeat split; try apply NoDup_nil_2; lia.
  - repeat constructor; lia.
  - intros c. unfold attached_connections.
    rewrite elem_of_app, !elem_of_cons, !elem_of_nil. tauto.
Qed.

Lemma X1_acquisition_wires_the_graph_witness :
  exists (w' : World) (src gain processor analyser : nat),
    onStream [0] acquiring_world = (w', Ret tt) /\
    started (recorder w') = true /\
    userMediaStream (recorder w') = Some [0] /\
    mediaStreamSource (recorder w') = Some src /\
    sourceNode (recorder w') = Some gain /\
    scriptProcessorNode (recorder w') = Some processor /\
    analyserNode (recorder w') = Some analyser /\
    NoDup [src; gain; processor; analyser] /\
    Forall (fun n => nextNode (browser acquiring_world) <= n /\ n < nextNode (browser w'))
      [src; gain; processor; analyser] /\
    (forall c, c ∈ connections (browser w') <->
       c ∈ [(src, gain); (gain, analyser); (analyser, processor);
            (processor, destination (browser acquiring_world))]
       \/ c ∈ connections (browser acquiring_world)) /\
    handlers (browser w') = processor :: handlers (browser acquiring_world) /\
    log w' =
      log acquiring_world ++
        [OnStarted; SetOnaudioprocess processor true; RequestAnimationFrame;
         Connect src gain; Connect gain analyser; Connect analyser processor;
         Connect processor (destination (browser acquiring_world))] /\
    buffers (recorder w') = buffers (recorder acquiring_world) /\
    recording (recorder w') = recording (recorder acquiring_world) /\
    store w' = store acquiring_world.
Proof.
  apply (X1_acquisition_wires_the_graph acquiring_world [0]).
  vm_compute. reflexivity.
Defined.

(** When [dispose] returns on a recorder that has started, the fields it
    dereferences were set. *)
Lemma dispose_returns_attached (w w1 : World) :
  dispose w = (w1, Ret tt) -> started (recorder w) = true -> attached (recorder w).
Proof.
  destruct w as [[bl ums mss sn spn an rs rec st bufs d] sto
                   [rate dest next conns hs stopped] lg].
  cbn [recorder started]. intros Hret ->. revert Hret.
  destruct spn as [p|]; [|lazy -[app filter decide]; discriminate].
  destruct an as [a|]; [|lazy -[app filter decide]; discriminate].
  destruct sn as [g|]; [|lazy -[app filter decide]; discriminate].
  destruct mss as [s|]; [|lazy -[app filter decide]; discriminate].
  destruct ums as [[|t tr]|]; [lazy -[app filter decide]; discriminate|
                               |lazy -[app filter decide]; discriminate].
  intros _. exists s, g, p, a, t, tr. cbn. auto.
Qed.

(** X2.  When [dispose] returns on a recorder that has started, it has
    removed exactly the connections that leave the recorder's own four
    nodes and the handler of its own script processor, and it has stopped
    the first audio track of its stream.  Connections and handlers of other
    nodes of the shared context are kept, in their order; [buffers] and the
    arrays are untouched; the recorder is disposed and still started. *)
Theorem X2_dispose_releases_its_own_graph (w w1 : World) :
  dispose w = (w1, Ret tt) ->
  started (recorder w) = true ->
  exists (src gain processor analyser track : nat) (tracks : list nat),
    mediaStreamSource (recorder w) = Some src /\
    sourceNode (recorder w) = Some gain /\
    scriptProcessorNode (recorder w) = Some processor /\
    analyserNode (recorder w) = Some analyser /\
    userMediaStream (recorder w) = Some (track :: tracks) /\
    connections (browser w1)
    = filter (fun c => c.1 ∉ [src; gain; processor; analyser]) (connections (browser w)) /\
    handlers (browser w1) = filter (fun n => n <> processor) (handlers (browser w)) /\
    (forall t, t ∈ stoppedTracks (browser w1) <-> t = track \/ t ∈ stoppedTracks (browser w)) /\
    recorder w1 = set_disposed true (recorder w) /\
    store w1 = store w.
Proof.
  intros Hret Hs.
  destruct (dispose_returns_attached w w1 Hret Hs)
    as (src & gain & processor & analyser & track & tracks & H1 & H2 & H3 & H4 & H5).
  exists src, gain, processor, analyser, track, tracks.
  rewrite (dispose_result w src gain processor analyser track tracks Hs H1 H2 H3 H4 H5) in Hret.
  injection Hret as <-. cbn [recorder store browser connections handlers stoppedTracks].
  repeat apply conj; try assumption; try reflexivity.
  - rewrite !list_filter_filter. apply list_filter_iff. intros c.
    rewrite !elem_of_cons, elem_of_nil. tauto.
  - intros t. destruct (decide (track ∈ stoppedTracks (browser w))) as [Hin|Hnin].
    + split; [auto|]. intros [->|H]; assumption.
    + rewrite elem_of_cons. tauto.
Qed.

Lemma X2_dispose_releases_its_own_graph_witness :
  exists (src gain processor analyser track : nat) (tracks : list nat),
    mediaStreamSource (recorder listening_world) = Some src /\
    sourceNode (recorder listening_world) = Some gain /\
    scriptProcessorNode (recorder listening_world) = Some processor /\
    analyserNode (recorder listening_world) = Some analyser /\
    userMediaStream (recorder listening_world) = Some (track :: tracks) /\
    connections (browser (dispose listening_world).1)
    = filter (fun c => c.1 ∉ [src; gain; processor; analyser])
        (connections (browser listening_world)) /\
    handlers (browser (dispose listening_world).1)
    = filter (fun n => n <> processor) (handlers (browser listening_world)) /\
    (forall t, t ∈ stoppedTracks (browser (dispose listening_world).1)
               <-> t = track \/ t ∈ stoppedTracks (browser listening_world)) /\
    recorder (dispose listening_world).1 = set_disposed true (recorder listening_world) /\
    store (dispose listening_world).1 = store listening_world.
Proof.
  apply (X2_dispose_releases_its_own_graph listening_world (dispose listening_world).1).
  - vm_compute. reflexivity.
  - vm_compute. reflexivity.
Defined.

(** X3.  Acquiring a stream and disposing of the recorder is a round trip
    on the processing graph: in a browser none of whose connections or
    handlers mentions a node yet to be created, after the success callback
    and [dispose] the connections and the handlers are exactly what they
    were before the acquisition, and the first audio track of the stream is
    stopped. *)
Theorem X3_acquire_then_dispose_restores_the_graph
    (w : World) (track : nat) (tracks : list nat) :
  disposed (recorder w) = false ->
  fresh_nodes (browser w) ->
  (dispose (onStream (track :: tracks) w).1).2 = Ret tt /\
  connections (browser (run w [StreamAcquired (track :: tracks); CallDispose]))
  = connections (browser w) /\
  handlers (browser (run w [StreamAcquired (track :: tracks); CallDispose]))
  = handlers (browser w) /\
  track ∈ stoppedTracks (browser (run w [StreamAcquired (track :: tracks); CallDispose])) /\
  disposed (recorder (run w [StreamAcquired (track :: tracks); CallDispose])) = true.
Proof.
  intros Hd [Hconns Hhs].
  cbn [run fold_left step].
  rewrite (onStream_result w (track :: tracks) Hd). cbn [fst].
  set (n := nextNode (browser w)) in *.
  match goal with |- context [dispose ?w1] =>
    rewrite (dispose_result w1 n (S n) (S (S n)) (S (S (S n))) track tracks)
      by reflexivity
  end.
  cbn [fst snd recorder browser connections handlers stoppedTracks set_disposed disposed].
  split; [reflexivity|].
  assert (Hkeep : forall m, n <= m -> Forall (fun c : nat * nat => c.1 <> m) (connections (browser w))).
  { intros m Hm. eapply Forall_impl; [exact Hconns|]. cbn. intros c Hc. lia. }
  split.
  { unfold attached_connections. rewrite !filter_app.
    rewrite (filter_fixed (fun c : nat * nat => c.1 <> (S (S n))) (connections (browser w))
               (Hkeep (S (S n)) ltac:(lia))).
    rewrite (filter_fixed (fun c : nat * nat => c.1 <> (S (S (S n)))) (connections (browser w))
               (Hkeep (S (S (S n))) ltac:(lia))).
    rewrite (filter_fixed (fun c : nat * nat => c.1 <> (S n)) (connections (browser w))
               (Hkeep (S n) ltac:(lia))).
    rewrite (filter_fixed (fun c : nat * nat => c.1 <> n) (connections (browser w))
               (Hkeep n ltac:(lia))).
    repeat first [ rewrite filter_cons_False by (cbn [fst]; lia)
                 | rewrite filter_cons_True by (cbn [fst]; lia) ].
    rewrite !filter_nil. reflexivity. }
  split.
  { rewrite filter_cons_False by lia. apply filter_fixed.
    eapply Forall_impl; [exact Hhs|]. cbn. intros m Hm. lia. }
  split; [|reflexivity].
  destruct (decide (track ∈ stoppedTracks (browser w))); [assumption|constructor].
Qed.

Lemma X3_acquire_then_dispose_restores_the_graph_witness :
  connections (browser (run acquiring_world [StreamAcquired [0]; CallDispose]))
  = connections (browser acquiring_world) /\
  handlers (browser (run acquiring_world [StreamAcquired [0]; CallDispose]))
  = handlers (browser acquiring_world).
Proof.
  destruct (X3_acquire_then_dispose_restores_the_graph acquiring_world 0 [])
    as (_ & Hc & Hh & _).
  - vm_compute. reflexivity.
  - split; vm_compute; constructor.
  - exact (conj Hc Hh).
Defined.

(* ===================================================================== *)
(** * What every session keeps *)
(* ===================================================================== *)

(** How one event changes the fields of the recorder. *)
Lemma step_recorder (w : World) (ev : Event) :
  match ev with
  | CallStartRecording => recorder (step w ev) = set_recording true (recorder w)
  | StreamAcquired stream =>
      recorder (step w ev) = recorder w \/
      (disposed (recorder w) = false /\
       recorder (step w ev)
       = attached_recorder stream (nextNode (browser w)) (set_started true (recorder w)))
  | AudioProcess channelData =>
      recorder (step w ev) = recorder w \/
      (recording (recorder w) = true /\ disposed (recorder w) = false /\
       recorder (step w ev) = push_buffers (length (store w)) (recorder w))
  | CallDispose =>
      recorder (step w ev) = recorder w \/
      recorder (step w ev) = set_disposed true (recorder w)
  | _ => recorder (step w ev) = recorder w
  end.
Proof.
  destruct ev as [[e|]|stream|e| |channelData|data| |]; cbn [step].
  - unfold startListening, bind, this, emit, ret.
    now destruct (disposed (recorder w)).
  - reflexivity.
  - destruct (disposed (recorder w)) eqn:Hd.
    + left. now rewrite disposed_onStream.
    + right. split; [reflexivity|]. now rewrite onStream_result.
  - unfold onFailure, bind, this, emit, ret. now destruct (disposed (recorder w)).
  - reflexivity.
  - unfold onaudioprocess, bind, this, new_array, assign, ret.
    destruct (recording (recorder w)), (disposed (recorder w)); cbn; auto.
  - unfold update, bind, this, emit, ret. now destruct (disposed (recorder w)).
  - destruct (stop w) as [w' o] eqn:Hstop.
    now destruct (stop_frame w w' o Hstop) as [(Hr & _) _].
  - destruct w as [[bl ums mss sn spn an rs rec st bufs d] sto
                     [rate dest next conns hs stopped] lg].
    destruct st; [|right; reflexivity].
    destruct spn as [p|]; [|left; reflexivity].
    destruct an as [a|]; [|left; reflexivity].
    destruct sn as [g|]; [|left; reflexivity].
    destruct mss as [s|]; [|left; reflexivity].
    destruct ums as [[|t tr]|]; [left; reflexivity|right; reflexivity|left; reflexivity].
Qed.

(** One event never removes or changes an array: it may only allocate. *)
Lemma step_store (w : World) (ev : Event) :
  length (store w) <= length (store (step w ev)) /\
  (forall a, a < length (store w) -> store (step w ev) !! a = store w !! a).
Proof.
  destruct ev as [[e|]|stream|e| |channelData|data| |]; cbn [step].
  - unfold startListening, bind, this, emit, ret. now destruct (disposed (recorder w)).
  - auto.
  - destruct (disposed (recorder w)) eqn:Hd.
    + now rewrite disposed_onStream.
    + now rewrite onStream_result.
  - unfold onFailure, bind, this, emit, ret. now destruct (disposed (recorder w)).
  - auto.
  - unfold onaudioprocess, bind, this, new_array, assign, ret.
    destruct (recording (recorder w)), (disposed (recorder w)); cbn; auto.
    split; [rewrite length_app; lia|]. intros a Ha. now rewrite lookup_app_l.
  - unfold update, bind, this, emit, ret. now destruct (disposed (recorder w)).
  - destruct (stop w) as [w' o] eqn:Hstop.
    destruct (stop_frame w w' o Hstop) as [(_ & _ & _ & Hlen & Hkeep) _]. auto.
  - destruct (dispose_effects w) as (_ & _ & _ & -> & _). auto.
Qed.

(** X4.  Over any sequence of method calls and callbacks, from any state:
    [bufferLength] and [recordedSamples] keep their values (the latter is
    never written, so it stays at the 0 of the constructor); the flags
    [started], [recording] and [disposed] are never cleared once set;
    [buffers] only grows at its end, so no chunk is removed or reordered;
    and no array that exists is ever changed, so the chunks that were kept
    and the arrays of earlier results keep their content. *)
Theorem X4_flags_are_one_way_and_buffers_append_only (w : World) (evs : list Event) :
  bufferLength (recorder (run w evs)) = bufferLength (recorder w) /\
  recordedSamples (recorder (run w evs)) = recordedSamples (recorder w) /\
  (started (recorder w) = true -> started (recorder (run w evs)) = true) /\
  (recording (recorder w) = true -> recording (recorder (run w evs)) = true) /\
  (disposed (recorder w) = true -> disposed (recorder (run w evs)) = true) /\
  (exists more, buffers (recorder (run w evs)) = buffers (recorder w) ++ more) /\
  (forall a c, store w !! a = Some c -> store (run w evs) !! a = Some c).
Proof.
  revert w. induction evs as [|ev evs IH]; intros w.
  - cbn. repeat apply conj; auto. exists []. now rewrite app_nil_r.
  - change (run w (ev :: evs)) with (run (step w ev) evs).
    destruct (IH (step w ev)) as (Hbl & Hrs & Hst & Hrec & Hdis & [more Hbuf] & Hsto).
    destruct (step_store w ev) as [_ Hkeep].
    assert (Hone :
      bufferLength (recorder (step w ev)) = bufferLength (recorder w) /\
      recordedSamples (recorder (step w ev)) = recordedSamples (recorder w) /\
      (started (recorder w) = true -> started (recorder (step w ev)) = true) /\
      (recording (recorder w) = true -> recording (recorder (step w ev)) = true) /\
      (disposed (recorder w) = true -> disposed (recorder (step w ev)) = true) /\
      exists more, buffers (recorder (step w ev)) = buffers (recorder w) ++ more).
    { pose proof (step_recorder w ev) as Hr.
      destruct ev as [[e|]|stream|e| |channelData|data| |];
        try (rewrite Hr; repeat apply conj; auto; exists []; now rewrite app_nil_r).
      - destruct Hr as [->|[Hd ->]].
        + repeat apply conj; auto. exists []. now rewrite app_nil_r.
        + cbn. repeat apply conj; auto. exists []. now rewrite app_nil_r.
      - destruct Hr as [->|(_ & _ & ->)].
        + repeat apply conj; auto. exists []. now rewrite app_nil_r.
        + cbn. repeat apply conj; auto. now eexists.
      - destruct Hr as [->| ->].
        + repeat apply conj; auto. exists []. now rewrite app_nil_r.
        + cbn. repeat apply conj; auto. exists []. now rewrite app_nil_r. }
    destruct Hone as (Hbl1 & Hrs1 & Hst1 & Hrec1 & Hdis1 & [more1 Hbuf1]).
    repeat apply conj; try congruence; auto.
    + exists (more1 ++ more). now rewrite Hbuf, Hbuf1, app_assoc.
    + intros a c Ha. apply Hsto. rewrite Hkeep; [exact Ha|]. now apply lookup_lt_Some in Ha.
Qed.

(** ** Sessions with a conforming browser *)







(** X6.  Nothing is kept before [startRecording]: from a state in which
    [recording] is not set and [buffers] is empty, such as a new recorder,
    any sequence of events without a call of [startRecording] leaves
    [recording] unset and [buffers] empty, whatever chunks the callbacks
    deliver and whether or not the recorder is listening. *)
Theorem X6_no_chunk_is_kept_before_startRecording (w : World) (evs : list Event) :
  recording (recorder w) = false ->
  buffers (recorder w) = [] ->
  CallStartRecording ∉ evs ->
  recording (recorder (run w evs)) = false /\ buffers (recorder (run w evs)) = [].
Proof.
  revert w. induction evs as [|ev evs IH]; intros w Hrec Hbuf Hno; [auto|].
  change (run w (ev :: evs)) with (run (step w ev) evs).
  rewrite not_elem_of_cons in Hno. destruct Hno as [Hne Hno].
  pose proof (step_recorder w ev) as Hr.
  apply IH; [| |exact Hno];
    destruct ev as [[e|]|stream|e| |channelData|data| |]; try congruence;
    try (rewrite Hr; assumption);
    try (destruct Hr as [->|[_ ->]]; assumption);
    try (destruct Hr as [->|(Hr & _)]; [assumption|congruence]);
    try (destruct Hr as [->| ->]; assumption).
Qed.

Lemma X6_no_chunk_is_kept_before_startRecording_witness :
  recording (recorder (run (new_world 48000%float)
                         [CallStartListening None; StreamAcquired [0];
                          AudioProcess loud_chunk; AnimationFrame loud_chunk; CallStop]))
  = false /\
  buffers (recorder (run (new_world 48000%float)
                       [CallStartListening None; StreamAcquired [0];
                        AudioProcess loud_chunk; AnimationFrame loud_chunk; CallStop]))
  = [].
Proof.
  apply (X6_no_chunk_is_kept_before_startRecording (new_world 48000%float)).
  - reflexivity.
  - reflexivity.
  - rewrite !not_elem_of_cons. repeat split; try discriminate. apply not_elem_of_nil.
Defined.

(* ===================================================================== *)
(** * Recording and stopping *)
(* ===================================================================== *)

Lemma chunks_of_push (w : World) (old : list (list float)) (channelData : list float) :
  chunks_of w = Some old ->
  chunks_of (mkWorld (push_buffers (length (store w)) (recorder w))
               (store w ++ [channelData]) (browser w) (log w))
  = Some (old ++ [channelData]).
Proof.
  intros Hold. apply chunks_of_valid in Hold.
  unfold chunks_of. cbn [recorder store push_buffers buffers].
  apply mapM_Some. apply Forall2_app.
  - eapply Forall2_impl; [exact Hold|]. intros a c Ha.
    rewrite lookup_app_l; [exact Ha|]. now apply lookup_lt_Some in Ha.
  - constructor; [|constructor]. now rewrite lookup_app_r, Nat.sub_diag by lia.
Qed.

Lemma chunks_kept_aux (delivered : list (list float)) :
  forall (w : World) (old : list (list float)),
    chunks_of w = Some old ->
    recording (recorder w) = true ->
    disposed (recorder w) = false ->
    chunks_of (run w (map AudioProcess delivered)) = Some (old ++ delivered) /\
    length (buffers (recorder (run w (map AudioProcess delivered))))
    = length (buffers (recorder w)) + length delivered /\
    bufferLength (recorder (run w (map AudioProcess delivered))) = bufferLength (recorder w) /\
    browser (run w (map AudioProcess delivered)) = browser w /\
    log (run w (map AudioProcess delivered)) = log w.
Proof.
  induction delivered as [|c delivered IH]; intros w old Hold Hrec Hd.
  - cbn. rewrite app_nil_r. auto.
  - cbn [map]. change (run w (AudioProcess c :: map AudioProcess delivered))
      with (run (step w (AudioProcess c)) (map AudioProcess delivered)).
    assert (Hstep : step w (AudioProcess c)
                    = mkWorld (push_buffers (length (store w)) (recorder w))
                        (store w ++ [c]) (browser w) (log w)).
    { cbn [step]. unfold onaudioprocess, bind, this, new_array, assign, ret.
      now rewrite Hrec, Hd. }
    rewrite Hstep.
    destruct (IH _ (old ++ [c]) (chunks_of_push w old c Hold) Hrec Hd)
      as (Hchunks & Hlen & Hbl & Hb & Hl).
    rewrite Hchunks, Hlen, Hbl, Hb, Hl, <- app_assoc.
    cbn [recorder push_buffers buffers bufferLength browser log app length].
    rewrite length_app. cbn [length]. repeat split; lia.
Qed.

(** X7.  While the recorder records and is not disposed, the chunks the
    callbacks deliver are kept in the order the callbacks fire, after the
    chunks already held, each as a new array with the delivered content;
    nothing but [buffers] and the store changes. *)
Theorem X7_chunks_are_kept_in_callback_order
    (w : World) (old delivered : list (list float)) :
  chunks_of w = Some old ->
  recording (recorder w) = true ->
  disposed (recorder w) = false ->
  chunks_of (run w (map AudioProcess delivered)) = Some (old ++ delivered) /\
  length (buffers (recorder (run w (map AudioProcess delivered))))
  = length (buffers (recorder w)) + length delivered /\
  browser (run w (map AudioProcess delivered)) = browser w /\
  log (run w (map AudioProcess delivered)) = log w.
Proof.
  intros Hold Hrec Hd.
  destruct (chunks_kept_aux delivered w old Hold Hrec Hd) as (H1 & H2 & _ & H3 & H4).
  auto.
Qed.

Lemma X7_chunks_are_kept_in_callback_order_witness :
  chunks_of (run short_world (map AudioProcess [silent_chunk; loud_chunk]))
  = Some ([loud_chunk] ++ [silent_chunk; loud_chunk]).
Proof.
  apply (X7_chunks_are_kept_in_callback_order short_world [loud_chunk]
           [silent_chunk; loud_chunk]); vm_compute; reflexivity.
Defined.





(** X10.  [stop] on a recorder that holds no chunk, as when it is called
    before any chunk was recorded: it returns, the levels and the samples
    are empty arrays, both indices stay [null], and the division by a chunk
    count of 0 makes [trimStart] positive infinity and [trimEnd] negative
    infinity. *)
Theorem X10_stop_without_chunks (w : World) :
  buffers (recorder w) = [] ->
  exists (w' : World) (r : TrimResult),
    stop w = (w', Ret r) /\
    found_of [] = (None, None) /\
    trimStart r = PrimFloat.infinity /\
    trimEnd r = PrimFloat.neg_infinity /\
    store w' !! levels r = Some [] /\
    store w' !! samples r = Some [] /\
    sampleRate r = contextSampleRate (browser w).
Proof.
  intros Hb.
  assert (Hcs : chunks_of w = Some []) by (unfold chunks_of; now rewrite Hb).
  eexists. eexists.
  split; [exact (stop_returns w [] Hcs (Forall_nil_2 _))|].
  cbn [trimStart trimEnd levels samples sampleRate store].
  split; [reflexivity|].
  split; [vm_compute; reflexivity|].
  split; [vm_compute; reflexivity|].
  split; [now rewrite lookup_app_r, Nat.sub_diag by lia|].
  split; [|reflexivity].
  rewrite lookup_app_r by lia.
  now replace (S (length (store w)) - length (store w)) with 1 by lia.
Qed.

Lemma X10_stop_without_chunks_witness :
  exists (w' : World) (r : TrimResult),
    stop listening_world = (w', Ret r) /\
    found_of [] = (None, None) /\
    trimStart r = PrimFloat.infinity /\
    trimEnd r = PrimFloat.neg_infinity /\
    store w' !! levels r = Some [] /\
    store w' !! samples r = Some [] /\
    sampleRate r = contextSampleRate (browser listening_world).
Proof.
  apply (X10_stop_without_chunks listening_world). reflexivity.
Defined.

(** ** A capture of silence *)

Lemma Math_max_zeros (n : nat) :
  fold_left max_step (replicate n 0%float) 0%float = 0%float.
Proof. induction n as [|n IH]; [reflexivity|exact IH]. Qed.

Lemma scan_loop_zeros (n i : nat) (first last : option float) :
  scan_loop (replicate n 0%float) 0%float i first last = (first, last).
Proof.
  revert i. induction n as [|n IH]; intros i; [reflexivity|].
  cbn [replicate scan_loop].
  change (PrimFloat.ltb 0 0) with false. cbn iota. apply IH.
Qed.

Lemma levels_all_zero (cs : list (list float)) :
  Forall (fun c => calculateRMS c = 0%float) cs ->
  levels_of cs = replicate (length cs) 0%float.
Proof.
  unfold levels_of. induction 1 as [|c cs Hc _ IH]; [reflexivity|].
  cbn [map length replicate]. now rewrite Hc, IH.
Qed.

(** X11.  A capture in which every chunk has level 0, as chunks of zeros
    have: the largest level and the threshold are 0, no level is strictly
    above the threshold, both indices stay [null], and for [n >= 1] chunks
    [stop] returns [trimStart = 2 / n] and
    [trimEnd = Math.min(n - 2, 2) / n]. *)
Theorem X11_a_silent_capture_finds_no_chunk (w : World) (cs : list (list float)) :
  chunks_of w = Some cs ->
  Forall (fun c => length c <= bufferLength (recorder w)) cs ->
  cs <> [] ->
  Forall (fun c => calculateRMS c = 0%float) cs ->
  exists (w' : World) (r : TrimResult),
    stop w = (w', Ret r) /\
    Math_max (levels_of cs) = 0%float /\
    threshold_of cs = 0%float /\
    found_of cs = (None, None) /\
    trimStart r = (2 / float_of_nat (length cs))%float /\
    trimEnd r = (Math_min [float_of_nat (length cs) - 2; 2] / float_of_nat (length cs))%float.
Proof.
  intros Hcs Hfit Hne Hzero.
  pose proof (levels_all_zero cs Hzero) as Hlv.
  assert (Hmax : Math_max (levels_of cs) = 0%float).
  { rewrite Hlv. destruct cs as [|c cs]; [congruence|].
    cbn [length replicate]. unfold Math_max. cbn [fold_left].
    change (max_step PrimFloat.neg_infinity 0) with 0%float. apply Math_max_zeros. }
  assert (Hthr : threshold_of cs = 0%float).
  { unfold threshold_of. rewrite Hmax. reflexivity. }
  assert (Hfound : found_of cs = (None, None)).
  { unfold found_of. rewrite Hthr, Hlv. apply scan_loop_zeros. }
  eexists. eexists.
  split; [exact (stop_returns w cs Hcs Hfit)|].
  cbn [trimStart trimEnd]. rewrite Hfound. cbn [fst snd].
  repeat apply conj; auto.
Qed.

Lemma X11_a_silent_capture_finds_no_chunk_witness :
  exists (w' : World) (r : TrimResult),
    stop silent_world = (w', Ret r) /\
    Math_max (levels_of (replicate 3 silent_chunk)) = 0%float /\
    threshold_of (replicate 3 silent_chunk) = 0%float /\
    found_of (replicate 3 silent_chunk) = (None, None) /\
    trimStart r = (2 / float_of_nat (length (replicate 3 silent_chunk)))%float /\
    trimEnd r = (Math_min [float_of_nat (length (replicate 3 silent_chunk)) - 2; 2]
                   / float_of_nat (length (replicate 3 silent_chunk)))%float.
Proof.
  apply (X11_a_silent_capture_finds_no_chunk silent_world (replicate 3 silent_chunk)).
  - vm_compute. reflexivity.
  - chunks_fit.
  - discriminate.
  - repeat (constructor; [vm_compute; reflexivity|]). constructor.
Defined.

(** ** Chunks that do not fit *)

Lemma copy_loop_overflow (buffer : nat) (bufs : list nat) :
  forall (cs : list (list float)) (offset : nat) (w : World) (t : list float),
    Forall2 (fun a c => store w !! a = Some c) bufs cs ->
    Forall (fun a => a <> buffer) bufs ->
    store w !! buffer = Some t ->
    offset <= length t ->
    length t < offset + length (concat cs) ->
    (copy_loop bufs buffer offset w).2 = Throw RangeError.
Proof.
  induction bufs as [|b bufs IH]; intros cs offset w t Hcs Hne Ht Hoff Hover.
  - apply Forall2_nil_inv_l in Hcs as ->. cbn in Hover. lia.
  - apply Forall2_cons_inv_l in Hcs as (c & cs' & Hb & Hcs & ->).
    apply Forall_cons in Hne as [Hb_ne Hne].
    cbn [concat] in Hover. rewrite length_app in Hover.
    cbn [copy_loop].
    rewrite (bind_ret _ _ w w c) by (unfold read; now rewrite Hb).
    destruct (Nat.leb_spec (offset + length c) (length t)) as [Hle|Hgt].
    + set (t1 := take offset t ++ c ++ drop (offset + length c) t).
      assert (Hlen1 : length t1 = length t).
      { subst t1. rewrite !length_app, length_take, length_drop. lia. }
      rewrite (bind_ret _ _ w
                 (mkWorld (recorder w) (<[buffer := t1]> (store w)) (browser w) (log w)) tt).
      2:{ unfold typed_array_set. rewrite Ht.
          destruct (Nat.leb_spec (offset + length c) (length t)); [reflexivity|lia]. }
      apply (IH cs' (offset + length c) _ t1); cbn [store].
      * now apply lookup_insert_other.
      * exact Hne.
      * apply list_lookup_insert_eq. now apply lookup_lt_Some in Ht.
      * lia.
      * lia.
    + unfold bind, typed_array_set. rewrite Ht.
      destruct (Nat.leb_spec (offset + length c) (length t)); [lia|reflexivity].
Qed.

(** X12.  [stop] sizes the sample buffer by [bufferLength], not by the
    chunks it holds: when the chunks hold more samples in total than
    [buffers.length * bufferLength], as a single chunk longer than
    [bufferLength] does, [buffer.set] runs past the end and [stop] throws a
    [RangeError] instead of returning; the recorder is left as it was. *)
Theorem X12_stop_throws_when_chunks_overflow (w : World) (cs : list (list float)) :
  chunks_of w = Some cs ->
  length cs * bufferLength (recorder w) < length (concat cs) ->
  (stop w).2 = Throw RangeError /\ recorder (stop w).1 = recorder w.
Proof.
  intros Hcs Hover. split.
  2:{ destruct (stop w) as [w' o] eqn:Hstop.
      now destruct (stop_frame w w' o Hstop) as [(Hr & _) _]. }
  apply chunks_of_valid in Hcs.
  pose proof (Forall2_length _ _ _ Hcs) as Hlen.
  unfold stop.
  rewrite (bind_ret _ _ w w (buffers (recorder w))) by reflexivity.
  rewrite (bind_ret _ _ w w (levels_of cs)) by now apply map_calculateRMS_spec.
  set (w1 := mkWorld (recorder w) (store w ++ [levels_of cs]) (browser w) (log w)).
  rewrite (bind_ret _ _ w w1 (length (store w))) by reflexivity.
  rewrite (bind_ret _ _ w1 w1 (bufferLength (recorder w))) by reflexivity.
  set (zeros := replicate (length (buffers (recorder w)) * bufferLength (recorder w)) 0%float).
  set (w2 := mkWorld (recorder w) (store w1 ++ [zeros]) (browser w) (log w)).
  rewrite (bind_ret _ _ w1 w2 (S (length (store w)))).
  2:{ unfold new_array. subst w2 w1. cbn [recorder store browser log].
      rewrite length_app. cbn [length]. do 2 f_equal. lia. }
  assert (Hbuf : store w2 !! S (length (store w)) = Some zeros).
  { subst w2 w1. cbn [store]. rewrite lookup_app_r; rewrite length_app; cbn [length]; [|lia].
    now replace (S (length (store w)) - (length (store w) + 1)) with 0 by lia. }
  assert (Hold : Forall2 (fun a c => store w2 !! a = Some c) (buffers (recorder w)) cs).
  { eapply Forall2_impl; [exact Hcs|]. intros a c Ha. subst w2 w1. cbn [store].
    rewrite <- app_assoc. rewrite lookup_app_l; [exact Ha|]. now apply lookup_lt_Some in Ha. }
  assert (Hne : Forall (fun a => a <> S (length (store w))) (buffers (recorder w))).
  { apply Forall_forall. intros a Ha.
    apply list_elem_of_lookup in Ha as [i Hi].
    destruct (Forall2_lookup_l _ _ _ _ _ Hcs Hi) as (c & _ & Hc).
    apply lookup_lt_Some in Hc. lia. }
  pose proof (copy_loop_overflow _ _ cs 0 w2 zeros Hold Hne Hbuf ltac:(lia)
                ltac:(subst zeros; rewrite length_replicate, Hlen; cbn; lia)) as Hthrow.
  unfold bind at 1.
  destruct (copy_loop (buffers (recorder w)) (S (length (store w))) 0 w2) as [w3 o].
  cbn [snd] in Hthrow. now rewrite Hthrow.
Qed.

Lemma X12_stop_throws_when_chunks_overflow_witness :
  (stop (recorded [replicate 1025 0%float])).2 = Throw RangeError /\
  recorder (stop (recorded [replicate 1025 0%float])).1
  = recorder (recorded [replicate 1025 0%float]).
Proof.
  apply (X12_stop_throws_when_chunks_overflow (recorded [replicate 1025 0%float])
           [replicate 1025 0%float]).
  - vm_compute. reflexivity.
  - vm_compute. lia.
Defined.

(* ===================================================================== *)
(** * The loudness curve, in exact arithmetic *)
(* ===================================================================== *)













(* ===================================================================== *)
(** * The loudness loop and repeated acquisition *)
(* ===================================================================== *)

(** X17.  The loudness loop on a recorder that is not disposed: each
    animation frame requests the next one and then passes the level of the
    snapshot to [onUpdate], so a run of frames reports the levels of the
    snapshots in order, one per frame.  It does so whether or not the
    recorder records, and changes neither the recorder nor the arrays nor
    the graph. *)
Theorem X17_each_frame_reports_one_level (w : World) (snapshots : list (list float)) :
  disposed (recorder w) = false ->
  log (run w (map AnimationFrame snapshots))
  = log w ++ flat_map (fun data => [RequestAnimationFrame; OnUpdate (calculateRMS data)])
               snapshots /\
  recorder (run w (map AnimationFrame snapshots)) = recorder w /\
  store (run w (map AnimationFrame snapshots)) = store w /\
  browser (run w (map AnimationFrame snapshots)) = browser w.
Proof.
  revert w. induction snapshots as [|data snapshots IH]; intros w Hd.
  - cbn. now rewrite app_nil_r.
  - cbn [map flat_map].
    change (run w (AnimationFrame data :: map AnimationFrame snapshots))
      with (run (step w (AnimationFrame data)) (map AnimationFrame snapshots)).
    assert (Hstep : step w (AnimationFrame data)
                    = mkWorld (recorder w) (store w) (browser w)
                        (log w ++ [RequestAnimationFrame; OnUpdate (calculateRMS data)])).
    { cbn [step]. unfold update, bind, this, emit, ret. rewrite Hd. cbn.
      now rewrite <- app_assoc. }
    rewrite Hstep.
    destruct (IH (mkWorld (recorder w) (store w) (browser w)
                    (log w ++ [RequestAnimationFrame; OnUpdate (calculateRMS data)])) Hd)
      as (Hl & Hr & Hs & Hb).
    rewrite Hl, Hr, Hs, Hb. cbn [log recorder store browser].
    now rewrite <- app_assoc.
Qed.

Lemma X17_each_frame_reports_one_level_witness :
  log (run listening_world (map AnimationFrame [loud_chunk; silent_chunk]))
  = log listening_world
      ++ flat_map (fun data => [RequestAnimationFrame; OnUpdate (calculateRMS data)])
           [loud_chunk; silent_chunk].
Proof.
  apply (X17_each_frame_reports_one_level listening_world [loud_chunk; silent_chunk]).
  vm_compute. reflexivity.
Defined.

(** X18.  The recorder holds one processing graph.  When a second stream
    is acquired before [dispose], the fields are overwritten with the nodes
    of the second graph, and [dispose] then tears down the second graph
    only: the handler on the first script processor, the connections of the
    first graph and the first track, if it is another track and was not
    stopped, are left as they are. *)
Theorem X18_dispose_leaves_an_earlier_graph
    (w : World) (first : list nat) (track : nat) (tracks : list nat) :
  disposed (recorder w) = false ->
  (dispose (run w [StreamAcquired first; StreamAcquired (track :: tracks)])).2 = Ret tt /\
  disposed (recorder (run w [StreamAcquired first; StreamAcquired (track :: tracks);
                             CallDispose])) = true /\
  S (S (nextNode (browser w)))
    ∈ handlers (browser (run w [StreamAcquired first; StreamAcquired (track :: tracks);
                                CallDispose])) /\
  (forall c, c ∈ attached_connections (nextNode (browser w)) (destination (browser w)) ->
     c ∈ connections (browser (run w [StreamAcquired first; StreamAcquired (track :: tracks);
                                      CallDispose]))) /\
  (forall t, t ∈ first -> t <> track -> t ∉ stoppedTracks (browser w) ->
     t ∉ stoppedTracks (browser (run w [StreamAcquired first;
                                        StreamAcquired (track :: tracks); CallDispose]))).
Proof.
  intros Hd. cbn [run fold_left step].
  rewrite (onStream_result w first Hd). cbn [fst].
  set (n := nextNode (browser w)).
  match goal with |- context [onStream _ ?w1] =>
    rewrite (onStream_result w1 (track :: tracks)) by exact Hd
  end.
  cbn [fst recorder browser nextNode destination connections handlers contextSampleRate
         stoppedTracks store log].
  match goal with |- context [dispose ?w2] =>
    rewrite (dispose_result w2 (S (S (S (S n)))) (S (S (S (S (S n))))) (S (S (S (S (S (S n))))))
               (S (S (S (S (S (S (S n))))))) track tracks) by reflexivity
  end.
  cbn [fst snd recorder browser connections handlers stoppedTracks set_disposed disposed].
  split; [reflexivity|]. split; [reflexivity|]. split.
  { apply list_elem_of_filter. split; [lia|].
    rewrite !elem_of_cons. auto. }
  split.
  { intros c Hc. unfold attached_connections in Hc |- *.
    rewrite !elem_of_cons, elem_of_nil in Hc.
    rewrite !list_elem_of_filter. rewrite elem_of_app, !elem_of_app, !elem_of_cons.
    destruct Hc as [->|[->|[->|[->|[]]]]]; cbn [fst]; repeat split; try lia; auto 10. }
  intros t _ Hne Hnot.
  destruct (decide (track ∈ stoppedTracks (browser w))); [exact Hnot|].
  rewrite elem_of_cons. tauto.
Qed.

Lemma X18_dispose_leaves_an_earlier_graph_witness :
  S (S (nextNode (browser acquiring_world)))
    ∈ handlers (browser (run acquiring_world [StreamAcquired [0]; StreamAcquired [1];
                                              CallDispose])).
Proof.
  destruct (X18_dispose_leaves_an_earlier_graph acquiring_world [0] 1 [])
    as (_ & _ & H & _).
  - vm_compute. reflexivity.
  - exact H.
Defined.

(** X19.  Until a stream is acquired the recorder does not touch the
    browser: from a state in which [started] is not set, any sequence of
    events without a success callback (failed or pending acquisitions,
    calls of any method, [dispose] included) leaves [started] unset, creates
    no node and changes no connection, handler or track. *)
Theorem X19_nothing_is_attached_before_acquisition (w : World) (evs : list Event) :
  started (recorder w) = false ->
  Forall (fun ev => forall stream, ev <> StreamAcquired stream) evs ->
  started (recorder (run w evs)) = false /\ browser (run w evs) = browser w.
Proof.
  revert w. induction evs as [|ev evs IH]; intros w Hs Hevs; [auto|].
  apply Forall_cons in Hevs as [Hev Hevs].
  change (run w (ev :: evs)) with (run (step w ev) evs).
  assert (Hstep : started (recorder (step w ev)) = false /\ browser (step w ev) = browser w).
  { pose proof (step_recorder w ev) as Hr.
    destruct ev as [[e|]|stream|e| |channelData|data| |]; cbn [step] in *.
    - rewrite Hr. split; [exact Hs|].
      unfold startListening, bind, this, emit, ret. now destruct (disposed (recorder w)).
    - rewrite Hr. auto.
    - now destruct (Hev stream).
    - rewrite Hr. split; [exact Hs|].
      unfold onFailure, bind, this, emit, ret. now destruct (disposed (recorder w)).
    - rewrite Hr. auto.
    - split.
      + destruct Hr as [->|(_ & _ & ->)]; exact Hs.
      + unfold onaudioprocess, bind, this, new_array, assign, ret.
        now destruct (recording (recorder w)), (disposed (recorder w)).
    - rewrite Hr. split; [exact Hs|].
      unfold update, bind, this, emit, ret. now destruct (disposed (recorder w)).
    - destruct (stop w) as [w' o] eqn:Hstop.
      destruct (stop_frame w w' o Hstop) as [(Hrec & Hb & _) _].
      cbn [fst] in *. now rewrite Hrec.
    - rewrite dispose_not_started by exact Hs. auto. }
  destruct Hstep as [Hs1 Hb1].
  destruct (IH (step w ev) Hs1 Hevs) as [Hs2 Hb2].
  split; [exact Hs2|congruence].
Qed.

Lemma X19_nothing_is_attached_before_acquisition_witness :
  started (recorder (run (new_world 48000%float)
                       [CallStartListening None; AcquisitionFailed "denied";
                        CallStartRecording; CallStop; CallDispose])) = false /\
  browser (run (new_world 48000%float)
             [CallStartListening None; AcquisitionFailed "denied";
              CallStartRecording; CallStop; CallDispose])
  = browser (new_world 48000%float).
Proof.
  apply (X19_nothing_is_attached_before_acquisition (new_world 48000%float)).
  - reflexivity.
  - repeat (constructor; [intros stream; discriminate|]). constructor.
Defined.

(** ** The two indices of the scan *)

Lemma first_index_le_last_index (p : float -> bool) (l : list float) (i j : nat) :
  first_index p l = Some i -> last_index p l = Some j -> i <= j < length l.
Proof.
  revert i j. induction l as [|x l IH]; intros i j; cbn [first_index last_index length];
    [discriminate|].
  destruct (p x) eqn:Hx.
  - intros [= <-]. destruct (last_index p l) as [j'|] eqn:Hl.
    + intros [= <-]. destruct (last_index_Some _ _ _ Hl) as [(y & Hy & _) _].
      apply lookup_lt_Some in Hy. lia.
    + intros [= <-]. lia.
  - destruct (first_index p l) as [i'|] eqn:Hf; [|discriminate]. intros [= <-].
    destruct (last_index p l) as [j'|]; [|discriminate]. intros [= <-].
    specialize (IH i' j' eq_refl eq_refl). lia.
Qed.

Lemma first_index_None_last_index (p : float -> bool) (l : list float) :
  first_index p l = None -> last_index p l = None.
Proof.
  induction l as [|x l IH]; cbn [first_index last_index]; [reflexivity|].
  destruct (p x); [discriminate|].
  destruct (first_index p l); [discriminate|]. intros _. now rewrite IH.
Qed.

(** X20.  The scan of [stop] leaves its two indices either both [null],
    when no level is strictly above the threshold, or both set, to the
    1-based positions of the first and of the last level above the
    threshold, with [1 <= first <= last <= chunkLevels.length]. *)
Theorem X20_scan_sets_both_indices_or_none (chunkLevels : list float) (threshold : float) :
  (scan_loop chunkLevels threshold 0 None None = (None, None) /\
   Forall (fun level => above threshold level = false) chunkLevels)
  \/
  (exists first last : nat,
     scan_loop chunkLevels threshold 0 None None
     = (Some (float_of_nat first), Some (float_of_nat last)) /\
     1 <= first /\ first <= last /\ last <= length chunkLevels /\
     is_first_above threshold chunkLevels first /\
     is_last_above threshold chunkLevels last).
Proof.
  rewrite scan_loop_indices.
  destruct (first_index (above threshold) chunkLevels) as [i|] eqn:Hi.
  - right.
    destruct (first_index_Some _ _ _ Hi) as [(x & Hx & Hpx) _].
    destruct (last_index_is_Some (above threshold) chunkLevels x) as [j Hj];
      [apply list_elem_of_lookup; eauto|exact Hpx|].
    pose proof (first_index_le_last_index _ _ _ _ Hi Hj) as Hij.
    exists (i + 1), (j + 1). rewrite Hj. cbn [fmap option_fmap option_map Nat.add].
    split; [reflexivity|]. split; [lia|]. split; [lia|]. split; [lia|].
    split; [now apply first_index_first_above|now apply last_index_last_above].
  - left. rewrite (first_index_None_last_index _ _ Hi). split; [reflexivity|].
    apply Forall_forall. intros level Hin.
    destruct (above threshold level) eqn:Hl; [|reflexivity].
    destruct (first_index_is_Some _ _ _ Hin Hl) as [k Hk]. congruence.
Qed.
